(** * Cody: a shallow embedding of the agent's tool handlers and turn loop

    The development follows the TypeScript sources: the full agent (the file
    that defines [readFileTool], [searchTool], [editFileTool], ...) and the
    earlier two-tool [agent.ts].

    JavaScript strings are sequences of UTF-16 code units; they are modelled
    as lists of code units.  The host primitives the handlers call
    ([String.prototype.indexOf], [split], [replace], [trim], the [fs] and
    [path] modules) are written out as executable functions, following
    ECMA-262 and the Node.js documentation. *)

From Stdlib Require Import String Ascii Numbers.DecimalString.
From Stdlib Require Import List NArith ZArith Bool Arith Lia.
Import ListNotations.

Set Implicit Arguments.
Set Warnings "-register-all".
Set Warnings "-automation".
Set Warnings "-default".

(* ================================================================== *)
(** * JavaScript strings *)
(* ================================================================== *)

Module JS.

(** A UTF-16 code unit. *)
Definition cu := N.

Definition jsstring := list cu.

(** A string literal of the source, as code units. *)
Definition lit (s : string) : jsstring :=
  List.map N_of_ascii (list_ascii_of_string s).

(** Template-literal interpolation of a non-negative number. *)
Definition decimal (n : N) : jsstring :=
  lit (NilZero.string_of_uint (N.to_uint n)).

Definition cu_eqb (a b : cu) : bool := N.eqb a b.

(** Strict equality [===] on strings. *)
Definition str_eq_dec : forall a b : jsstring, {a = b} + {a <> b} :=
  list_eq_dec N.eq_dec.

(** [startsWith s p]: [p] is a prefix of [s]. *)
Fixpoint startsWith (s p : jsstring) : bool :=
  match p, s with
  | [], _ => true
  | x :: p', y :: s' => cu_eqb x y && startsWith s' p'
  | _ :: _, [] => false
  end.

(** The smallest index at which [pat] occurs in [s], if any. *)
Fixpoint search_from (s pat : jsstring) : option nat :=
  if startsWith s pat then Some 0%nat
  else match s with
       | [] => None
       | _ :: s' => option_map S (search_from s' pat)
       end.

(** [s.indexOf(pat)]: -1 when [pat] does not occur. *)
Definition indexOf (s pat : jsstring) : Z :=
  match search_from s pat with
  | Some i => Z.of_nat i
  | None => (-1)%Z
  end.

(** [s.split(sep)] for a string separator and no limit (ECMA-262,
    String.prototype.split): an empty separator splits into code units, and
    the empty string split by the empty separator is the empty array. *)
Fixpoint split_from (fuel : nat) (s sep : jsstring) : list jsstring :=
  match fuel with
  | O => [s]
  | S fuel' =>
      match search_from s sep with
      | None => [s]
      | Some i => firstn i s :: split_from fuel' (skipn (i + length sep) s) sep
      end
  end.

Definition split (s sep : jsstring) : list jsstring :=
  match sep with
  | [] => List.map (fun c => [c]) s
  | _ :: _ => split_from (length s) s sep
  end.

Definition DOLLAR : cu := 36%N.
Definition AMPERSAND : cu := 38%N.
Definition APOSTROPHE : cu := 39%N.
Definition BACKTICK : cu := 96%N.

(** GetSubstitution (ECMA-262) for a string search value: there are no
    captures and no named groups, so [$n] and [$<] stand for themselves. *)
Fixpoint getSubstitution (matched str : jsstring) (position : nat)
         (template : jsstring) : jsstring :=
  match template with
  | [] => []
  | c :: t =>
      if cu_eqb c DOLLAR then
        match t with
        | [] => [c]
        | d :: t' =>
            if cu_eqb d DOLLAR then
              DOLLAR :: getSubstitution matched str position t'
            else if cu_eqb d AMPERSAND then
              matched ++ getSubstitution matched str position t'
            else if cu_eqb d BACKTICK then
              firstn position str ++ getSubstitution matched str position t'
            else if cu_eqb d APOSTROPHE then
              skipn (position + length matched) str
                ++ getSubstitution matched str position t'
            else c :: getSubstitution matched str position t
        end
      else c :: getSubstitution matched str position t
  end.

(** [s.replace(pat, repl)] with a string [pat]: the first occurrence only,
    and [repl] is a replacement template. *)
Definition replace (s pat repl : jsstring) : jsstring :=
  match search_from s pat with
  | None => s
  | Some i =>
      firstn i s ++ getSubstitution pat s i repl ++ skipn (i + length pat) s
  end.

(** [parts.join(sep)]. *)
Fixpoint join (parts : list jsstring) (sep : jsstring) : jsstring :=
  match parts with
  | [] => []
  | [p] => p
  | p :: rest => p ++ sep ++ join rest sep
  end.

Definition LF : cu := 10%N.
Definition CR : cu := 13%N.

(** LineTerminator of ECMA-262. *)
Definition isLineTerminator (c : cu) : bool :=
  cu_eqb c LF || cu_eqb c CR || cu_eqb c 8232%N || cu_eqb c 8233%N.

(** WhiteSpace of ECMA-262: TAB, VT, FF, ZWNBSP and the space separators. *)
Definition isWhiteSpace (c : cu) : bool :=
  cu_eqb c 9%N || cu_eqb c 11%N || cu_eqb c 12%N || cu_eqb c 32%N
  || cu_eqb c 160%N || cu_eqb c 5760%N
  || (N.leb 8192%N c && N.leb c 8202%N)
  || cu_eqb c 8239%N || cu_eqb c 8287%N || cu_eqb c 12288%N
  || cu_eqb c 65279%N.

Definition isTrimmed (c : cu) : bool := isWhiteSpace c || isLineTerminator c.

Fixpoint trimStart (s : jsstring) : jsstring :=
  match s with
  | [] => []
  | c :: s' => if isTrimmed c then trimStart s' else s
  end.

Definition trimEnd (s : jsstring) : jsstring := rev (trimStart (rev s)).

(** [s.trim()]. *)
Definition trim (s : jsstring) : jsstring := trimEnd (trimStart s).

(** ToBoolean on a string. *)
Definition truthy (s : jsstring) : bool :=
  match s with [] => false | _ :: _ => true end.

Definition cons_head (c : cu) (ls : list jsstring) : list jsstring :=
  match ls with
  | [] => [[c]]
  | l :: ls' => (c :: l) :: ls'
  end.

(** [s.split(/\r?\n/)]: a line feed ends a line, together with one carriage
    return right before it. *)
Fixpoint splitLines (s : jsstring) : list jsstring :=
  match s with
  | [] => [[]]
  | c :: s' =>
      if cu_eqb c LF then [] :: splitLines s'
      else
        match s' with
        | [] => [[c]]
        | d :: s'' =>
            if cu_eqb c CR && cu_eqb d LF then [] :: splitLines s''
            else cons_head c (splitLines s')
        end
  end.

(** UTF-8 encoding of a UTF-16 string ([Buffer.byteLength(s, "utf-8")] is
    its length): a surrogate pair encodes one code point in four bytes, a
    lone surrogate is replaced by U+FFFD (three bytes). *)
Definition isHighSurrogate (c : cu) : bool := N.leb 55296 c && N.leb c 56319.
Definition isLowSurrogate (c : cu) : bool := N.leb 56320 c && N.leb c 57343.

Definition utf8_of_codepoint (p : N) : list N :=
  if N.ltb p 128 then [p]
  else if N.ltb p 2048 then
    [N.lor 192 (N.shiftr p 6); N.lor 128 (N.land p 63)]
  else if N.ltb p 65536 then
    [N.lor 224 (N.shiftr p 12);
     N.lor 128 (N.land (N.shiftr p 6) 63);
     N.lor 128 (N.land p 63)]
  else
    [N.lor 240 (N.shiftr p 18);
     N.lor 128 (N.land (N.shiftr p 12) 63);
     N.lor 128 (N.land (N.shiftr p 6) 63);
     N.lor 128 (N.land p 63)].

Definition REPLACEMENT : N := 65533%N.

Fixpoint utf8Encode (s : jsstring) : list N :=
  match s with
  | [] => []
  | c :: s' =>
      if isHighSurrogate c then
        match s' with
        | d :: s'' =>
            if isLowSurrogate d then
              utf8_of_codepoint
                (65536 + (c - 55296) * 1024 + (d - 56320))%N
                ++ utf8Encode s''
            else utf8_of_codepoint REPLACEMENT ++ utf8Encode s'
        | [] => utf8_of_codepoint REPLACEMENT
        end
      else if isLowSurrogate c then
        utf8_of_codepoint REPLACEMENT ++ utf8Encode s'
      else utf8_of_codepoint c ++ utf8Encode s'
  end.

Definition byteLength (s : jsstring) : N := N.of_nat (length (utf8Encode s)).

(** The text that decoding the UTF-8 encoding of [s] gives back: [s] with
    every lone surrogate replaced by U+FFFD ([String.prototype.toWellFormed]). *)
Fixpoint toWellFormed (s : jsstring) : jsstring :=
  match s with
  | [] => []
  | c :: s' =>
      if isHighSurrogate c then
        match s' with
        | d :: s'' =>
            if isLowSurrogate d then c :: d :: toWellFormed s''
            else REPLACEMENT :: toWellFormed s'
        | [] => [REPLACEMENT]
        end
      else if isLowSurrogate c then REPLACEMENT :: toWellFormed s'
      else c :: toWellFormed s'
  end.

(** [isWellFormed]: no surrogate stands alone. *)
Fixpoint isWellFormed (s : jsstring) : bool :=
  match s with
  | [] => true
  | c :: s' =>
      if isHighSurrogate c then
        match s' with
        | d :: s'' => isLowSurrogate d && isWellFormed s''
        | [] => false
        end
      else negb (isLowSurrogate c) && isWellFormed s'
  end.

End JS.

Import JS.


(* ================================================================== *)
(** * Thrown values *)
(* ================================================================== *)

(** The values the handlers catch: Node's system errors carry a [code];
    every error carries a [message]. *)
Inductive errcode :=
  ENOENT | EACCES | ENOTDIR | EISDIR | ENOTEMPTY | EEXIST | EPERM | EBUSY.

Record exn := MkExn { code : option errcode; message : jsstring }.

(** The completion of a call: a value, or a thrown error. *)
Inductive completion (A : Type) :=
| Normal (a : A)
| Throw (e : exn).

Arguments Normal {A} a.
Arguments Throw {A} e.

(* ================================================================== *)
(** * The file system *)
(* ================================================================== *)

Module Fs.

(** A file system tree.  A file holds its text (the handlers read and write
    with the "utf-8" encoding) and its read and write permission; a
    directory holds its entries in the order [readdirSync] returns them;
    [Other] stands for what is neither and can be neither read nor written
    (a socket, say); a device that can be, such as [/dev/null], is outside
    the model.  A file is read by decoding the UTF-8 encoding of its text. *)
Inductive node :=
| File (readable writable : bool) (data : jsstring)
| Dir (readable writable : bool) (entries : list (jsstring * node))
| Other.

Definition entry := (jsstring * node)%type.

(** A resolved path: the names from the root of the tree. *)
Definition path := list jsstring.

Fixpoint assoc (name : jsstring) (es : list entry) : option node :=
  match es with
  | [] => None
  | (k, n) :: es' => if str_eq_dec name k then Some n else assoc name es'
  end.

Fixpoint set_entry (name : jsstring) (n : node) (es : list entry) : list entry :=
  match es with
  | [] => [(name, n)]
  | (k, m) :: es' =>
      if str_eq_dec name k then (k, n) :: es' else (k, m) :: set_entry name n es'
  end.

Fixpoint del_entry (name : jsstring) (es : list entry) : list entry :=
  match es with
  | [] => []
  | (k, m) :: es' =>
      if str_eq_dec name k then del_entry name es'
      else (k, m) :: del_entry name es'
  end.

(** Path lookup. *)
Fixpoint find (p : path) (n : node) : errcode + node :=
  match p with
  | [] => inr n
  | c :: p' =>
      match n with
      | Dir _ _ es =>
          match assoc c es with
          | Some child => find p' child
          | None => inl ENOENT
          end
      | _ => inl ENOTDIR
      end
  end.

(** Apply [f] to the directory that holds the last name of [p]; [f] gets
    the directory's write permission, its entries and the name. *)
Fixpoint at_parent (f : bool -> list entry -> jsstring -> errcode + list entry)
         (p : path) (n : node) : errcode + node :=
  match p with
  | [] => inl EBUSY
  | c :: p' =>
      match n with
      | Dir r w es =>
          match p' with
          | [] =>
              match f w es c with
              | inr es' => inr (Dir r w es')
              | inl e => inl e
              end
          | _ :: _ =>
              match assoc c es with
              | Some child =>
                  match at_parent f p' child with
                  | inr child' => inr (Dir r w (set_entry c child' es))
                  | inl e => inl e
                  end
              | None => inl ENOENT
              end
          end
      | _ => inl ENOTDIR
      end
  end.

(** Writing the entry [name] of a directory: an existing file is
    overwritten if it can be written, a missing one is made, readable and
    writable (the mode 0o666, under a umask that leaves the owner both), if
    the directory can be written; a special file refuses. *)
Definition write_entry (data : jsstring) (w : bool) (es : list entry)
           (name : jsstring) : errcode + list entry :=
  match assoc name es with
  | Some (File r fw _) =>
      if fw then inr (set_entry name (File r fw data) es) else inl EACCES
  | Some (Dir _ _ _) => inl EISDIR
  | Some Other => inl EPERM
  | None => if w then inr (set_entry name (File true true data) es) else inl EACCES
  end.

Definition unlink_entry (w : bool) (es : list entry) (name : jsstring)
  : errcode + list entry :=
  match assoc name es with
  | Some (Dir _ _ _) => inl EISDIR
  | Some _ => if w then inr (del_entry name es) else inl EACCES
  | None => inl ENOENT
  end.

Definition rmdir_entry (w : bool) (es : list entry) (name : jsstring)
  : errcode + list entry :=
  match assoc name es with
  | Some (Dir _ _ []) => if w then inr (del_entry name es) else inl EACCES
  | Some (Dir _ _ (_ :: _)) => inl ENOTEMPTY
  | Some _ => inl ENOTDIR
  | None => inl ENOENT
  end.

(** [mkdir -p]: every missing directory along [p] is created. *)
Fixpoint mkdirp (p : path) (n : node) : errcode + node :=
  match p with
  | [] =>
      match n with
      | Dir _ _ _ => inr n
      | _ => inl EEXIST
      end
  | c :: p' =>
      match n with
      | Dir r w es =>
          match assoc c es with
          | Some child =>
              match mkdirp p' child with
              | inr child' => inr (Dir r w (set_entry c child' es))
              | inl e => inl e
              end
          | None =>
              if w then
                match mkdirp p' (Dir true true []) with
                | inr child' => inr (Dir r w (set_entry c child' es))
                | inl e => inl e
                end
              else inl EACCES
          end
      | _ => inl ENOTDIR
      end
  end.

End Fs.

Import JS Fs.

(* ================================================================== *)
(** * Regular expression objects and the glob translation *)
(* ================================================================== *)

(** A RegExp object: the pattern source and the flags it was built with. *)
Record RegExp := MkRegExp { source : jsstring; flags : jsstring }.

Definition BACKSLASH : cu := 92%N.
Definition STAR : cu := 42%N.
Definition QUESTION : cu := 63%N.
Definition DOT : cu := 46%N.
Definition CARET : cu := 94%N.

(** The character class [[.+^${}()|[\]\\]] of [globToRegExp]. *)
Definition isEscaped (c : cu) : bool :=
  existsb (cu_eqb c) (lit ".+^${}()|[]\").

(** [.replace(/[.+^${}()|[\]\\]/g, "\\$&")] *)
Definition escapeSpecials (glob : jsstring) : jsstring :=
  flat_map (fun c => if isEscaped c then [BACKSLASH; c] else [c]) glob.

(** [.replace(/\*/g, ".*")] *)
Definition replaceStars (s : jsstring) : jsstring :=
  flat_map (fun c => if cu_eqb c STAR then [DOT; STAR] else [c]) s.

(** [.replace(/\?/g, ".")] *)
Definition replaceQuestions (s : jsstring) : jsstring :=
  flat_map (fun c => if cu_eqb c QUESTION then [DOT] else [c]) s.

Definition globToRegExp (glob : jsstring) : RegExp :=
  let escaped := replaceQuestions (replaceStars (escapeSpecials glob)) in
  MkRegExp ([CARET] ++ escaped ++ [DOLLAR]) (lit "i").

(* ================================================================== *)
(** * The host: [fs], [path] and the regular expression engine *)
(* ================================================================== *)

Definition code_name (c : errcode) : jsstring :=
  match c with
  | ENOENT => lit "ENOENT" | EACCES => lit "EACCES" | ENOTDIR => lit "ENOTDIR"
  | EISDIR => lit "EISDIR" | ENOTEMPTY => lit "ENOTEMPTY"
  | EEXIST => lit "EEXIST" | EPERM => lit "EPERM" | EBUSY => lit "EBUSY"
  end.

Definition code_text (c : errcode) : jsstring :=
  match c with
  | ENOENT => lit "no such file or directory"
  | EACCES => lit "permission denied"
  | ENOTDIR => lit "not a directory"
  | EISDIR => lit "illegal operation on a directory"
  | ENOTEMPTY => lit "directory not empty"
  | EEXIST => lit "file already exists"
  | EPERM => lit "operation not permitted"
  | EBUSY => lit "resource busy or locked"
  end.

(** A system error as Node raises it: [CODE: text, syscall 'path']. *)
Definition sysError (c : errcode) (syscall : string) (p : jsstring) : exn :=
  MkExn (Some c)
        (code_name c ++ lit ": " ++ code_text c ++ lit ", " ++ lit syscall
           ++ lit " '" ++ p ++ lit "'").

(** [e?.code === "ENOENT"] *)
Definition isENOENT (e : exn) : bool :=
  match code e with
  | Some ENOENT => true
  | _ => false
  end.

(** A file system call the search tool makes. *)
Inductive access :=
| Readdir (p : jsstring)
| ReadFile (p : jsstring).

Definition NL : jsstring := [LF].

(** [a ?? d] *)
Definition orElse (a : option jsstring) (d : jsstring) : jsstring :=
  match a with
  | Some v => v
  | None => d
  end.

Section FsCalls.

(** How the host resolves a path argument to a place in the tree. *)
Variable resolve : jsstring -> path.

Definition read_node (p : jsstring) (n : errcode + node) : completion jsstring :=
  match n with
  | inr (File true _ data) => Normal (toWellFormed data)
  | inr (File false _ _) => Throw (sysError EACCES "open" p)
  | inr (Dir _ _ _) =>
      Throw (MkExn (Some EISDIR)
                   (lit "EISDIR: illegal operation on a directory, read"))
  | inr Other => Throw (sysError EPERM "open" p)
  | inl c => Throw (sysError c "open" p)
  end.

(** [fs.readFileSync(p, "utf-8")] *)
Definition readFileSync (p : jsstring) (fs : node) : completion jsstring :=
  read_node p (find (resolve p) fs).

Definition readdir_node (p : jsstring) (n : errcode + node)
  : completion (list entry) :=
  match n with
  | inr (Dir true _ es) => Normal es
  | inr (Dir false _ _) => Throw (sysError EACCES "scandir" p)
  | inr _ => Throw (sysError ENOTDIR "scandir" p)
  | inl c => Throw (sysError c "scandir" p)
  end.

(** [fs.readdirSync(p, { withFileTypes: true })] *)
Definition readdirSync (p : jsstring) (fs : node) : completion (list entry) :=
  readdir_node p (find (resolve p) fs).

(** [fs.writeFileSync(p, data, "utf-8")]: the new tree, or the error. *)
Definition writeFileSync (p data : jsstring) (fs : node) : completion node :=
  match at_parent (write_entry data) (resolve p) fs with
  | inr fs' => Normal fs'
  | inl c => Throw (sysError c "open" p)
  end.

(** [fs.mkdirSync(p, { recursive: true })] *)
Definition mkdirSync (p : jsstring) (fs : node) : completion node :=
  match mkdirp (resolve p) fs with
  | inr fs' => Normal fs'
  | inl c => Throw (sysError c "mkdir" p)
  end.

(** [fs.statSync(p)] *)
Definition statSync (p : jsstring) (fs : node) : completion node :=
  match find (resolve p) fs with
  | inr n => Normal n
  | inl c => Throw (sysError c "stat" p)
  end.

(** [fs.unlinkSync(p)] *)
Definition unlinkSync (p : jsstring) (fs : node) : completion node :=
  match at_parent unlink_entry (resolve p) fs with
  | inr fs' => Normal fs'
  | inl c => Throw (sysError c "unlink" p)
  end.

(** [fs.rmdirSync(p)] *)
Definition rmdirSync (p : jsstring) (fs : node) : completion node :=
  match at_parent rmdir_entry (resolve p) fs with
  | inr fs' => Normal fs'
  | inl c => Throw (sysError c "rmdir" p)
  end.

Definition isFile (n : node) : bool :=
  match n with File _ _ _ => true | _ => false end.

Definition isDirectory (n : node) : bool :=
  match n with Dir _ _ _ => true | _ => false end.

End FsCalls.

(* ================================================================== *)
(** * The earlier agent, [agent.ts] *)
(* ================================================================== *)

Module AgentTs.

Section Host.

Variable resolve : jsstring -> path.

(** [readFile]: no [try]; what [fs.readFileSync] throws leaves the function. *)
Definition readFile (p : jsstring) (fs : node) : completion jsstring :=
  readFileSync resolve p fs.

(** [listDirectory] *)
Definition listDirectory (p : jsstring) (fs : node) : completion jsstring :=
  match readdirSync resolve p fs with
  | Normal es => Normal (join (List.map fst es) NL)
  | Throw e => Throw e
  end.

(** The dispatch written inline in [run], at a payload whose path, if any,
    is a string; [None] where [read_file] is given no path.  The dispatch at
    any payload is [dispatch_ts] below. *)
Definition dispatch (name : jsstring) (argPath : option jsstring) (fs : node)
  : option (completion jsstring) :=
  if str_eq_dec name (lit "read_file") then
    match argPath with
    | Some p => Some (readFile p fs)
    | None => None
    end
  else if str_eq_dec name (lit "list_directory") then
    Some (listDirectory (orElse argPath (lit ".")) fs)
  else Some (Normal (lit "Unknown tool")).

End Host.

End AgentTs.

(* ================================================================== *)
(** * Reference semantics *)
(* ================================================================== *)

(** ** Occurrences of a substring

    The number of non-overlapping matches of [old] in [s], scanning from the
    left; [skip] code units of the last match remain to be passed.  The
    empty string matches at every position, the end included. *)
Fixpoint occurrences_skip (old s : jsstring) (skip : nat) : nat :=
  match s with
  | [] =>
      match skip, old with
      | O, [] => 1
      | _, _ => 0
      end
  | _ :: s' =>
      match skip with
      | S k => occurrences_skip old s' k
      | O =>
          if startsWith s old then S (occurrences_skip old s' (length old - 1))
          else occurrences_skip old s' 0
      end
  end.

Definition occurrences (old s : jsstring) : nat := occurrences_skip old s 0.

(** ** The patterns [globToRegExp] builds

    The pattern sources made of [^], literal code units, escaped syntax
    characters, [.], [.*] and a final [$], read as ECMA-262 reads them. *)
Definition isSyntaxCharacter (c : cu) : bool :=
  existsb (cu_eqb c) (lit "^$\.*+?()[]{}|").

Inductive atom :=
| Lit (c : cu)
| AnyChar
| AnyRun.

(** The pattern after [^], up to and including the closing [$]. *)
Fixpoint parseBody (s : jsstring) : option (list atom) :=
  match s with
  | [] => None
  | c :: s' =>
      if cu_eqb c BACKSLASH then
        match s' with
        | d :: s'' =>
            if isSyntaxCharacter d then option_map (cons (Lit d)) (parseBody s'')
            else None
        | [] => None
        end
      else if cu_eqb c DOT then
        match s' with
        | d :: s'' =>
            if cu_eqb d STAR then option_map (cons AnyRun) (parseBody s'')
            else option_map (cons AnyChar) (parseBody s')
        | [] => None
        end
      else if cu_eqb c DOLLAR then
        match s' with
        | [] => Some []
        | _ :: _ => None
        end
      else if isSyntaxCharacter c then None
      else option_map (cons (Lit c)) (parseBody s')
  end.

Definition parseAnchored (src : jsstring) : option (list atom) :=
  match src with
  | c :: s' => if cu_eqb c CARET then parseBody s' else None
  | [] => None
  end.

Section Matching.

(** Canonicalize of ECMA-262 for the [i] flag (simple upper-casing). *)
Variable canon : cu -> cu.

(** Does the whole of [s] match the atoms?  [.] takes one code unit that is
    not a line terminator (the patterns carry no [s] flag). *)
Fixpoint matchAtoms (atoms : list atom) (s : jsstring) : bool :=
  match atoms with
  | [] =>
      match s with
      | [] => true
      | _ :: _ => false
      end
  | Lit c :: rest =>
      match s with
      | x :: s' => cu_eqb (canon x) (canon c) && matchAtoms rest s'
      | [] => false
      end
  | AnyChar :: rest =>
      match s with
      | x :: s' => negb (isLineTerminator x) && matchAtoms rest s'
      | [] => false
      end
  | AnyRun :: rest =>
      (fix run (s : jsstring) : bool :=
         matchAtoms rest s
         || match s with
            | x :: s' => negb (isLineTerminator x) && run s'
            | [] => false
            end) s
  end.

(** [re.test(s)] for a pattern of the fragment built with the [i] flag;
    [None] outside the fragment. *)
Definition fragmentTest (re : RegExp) (s : jsstring) : option bool :=
  if str_eq_dec (flags re) (lit "i") then
    option_map (fun atoms => matchAtoms atoms s) (parseAnchored (source re))
  else None.

(** What a glob means: [*] stands for a run of code units and [?] for one
    code unit, each accepted by [wild]; any other code unit stands for
    itself, up to case. *)
Inductive globMatches (wild : cu -> bool) : jsstring -> jsstring -> Prop :=
| gm_nil : globMatches wild [] []
| gm_star : forall g run rest,
    forallb wild run = true ->
    globMatches wild g rest ->
    globMatches wild (STAR :: g) (run ++ rest)
| gm_question : forall g x rest,
    wild x = true ->
    globMatches wild g rest ->
    globMatches wild (QUESTION :: g) (x :: rest)
| gm_literal : forall g c x rest,
    c <> STAR -> c <> QUESTION ->
    canon x = canon c ->
    globMatches wild g rest ->
    globMatches wild (c :: g) (x :: rest).

End Matching.

(** Canonicalize on the ASCII range: the letters are upper-cased. *)
Definition canonicalizeAscii (c : cu) : cu :=
  if N.leb 97 c && N.leb c 122 then (c - 32)%N else c.

(** The atoms a glob stands for, code unit by code unit. *)
Definition atomOfGlob (c : cu) : atom :=
  if cu_eqb c STAR then AnyRun
  else if cu_eqb c QUESTION then AnyChar
  else Lit c.

Definition anyCodeUnit (c : cu) : bool := true.
Definition notLineTerminator (c : cu) : bool := negb (isLineTerminator c).

(* ================================================================== *)
(** * Tool calls and messages *)
(* ================================================================== *)

(** A JSON value, as [JSON.parse] returns it.  A number is held by its
    decimal text (Number::toString), in which zero, of either sign, is ["0"]. *)
Inductive json :=
| JNull
| JBool (b : bool)
| JNum (text : jsstring)
| JStr (s : jsstring)
| JArr (items : list json)
| JObj (fields : list (jsstring * json)).

(** A value a handler may receive: [undefined] ([None]) or a JSON value. *)
Definition value := option json.

(** ToString on a JSON value; an array joins its items with commas, a
    [null] item giving the empty string. *)
Fixpoint ToString (j : json) : jsstring :=
  match j with
  | JNull => lit "null"
  | JBool true => lit "true"
  | JBool false => lit "false"
  | JNum text => text
  | JStr s => s
  | JArr items =>
      (fix joinItems (l : list json) : jsstring :=
         match l with
         | [] => []
         | x :: rest =>
             let item := match x with
                         | JNull => []
                         | _ => ToString x
                         end in
             match rest with
             | [] => item
             | _ :: _ => item ++ lit "," ++ joinItems rest
             end
         end) items
  | JObj _ => lit "[object Object]"
  end.

(** ToString on a value, as a template literal or [indexOf] applies it. *)
Definition toText (v : value) : jsstring :=
  match v with
  | Some j => ToString j
  | None => lit "undefined"
  end.

(** ToBoolean on a JSON value. *)
Definition ToBoolean (j : json) : bool :=
  match j with
  | JNull => false
  | JBool b => b
  | JNum text => if str_eq_dec text (lit "0") then false else true
  | JStr s => truthy s
  | JArr _ => true
  | JObj _ => true
  end.

(** A value that is truthy and is not a string: it has no [trim]. *)
Definition truthyNonString (v : value) : bool :=
  match v with
  | Some (JStr _) => false
  | Some j => ToBoolean j
  | None => false
  end.

(** [v ?? "."] *)
Definition orDot (v : value) : value :=
  match v with
  | None => Some (JStr (lit "."))
  | Some JNull => Some (JStr (lit "."))
  | Some _ => v
  end.

(** The TypeError of reading a property of [null]. *)
Definition nullArgsError (key : jsstring) : exn :=
  MkExn None (lit "Cannot read properties of null (reading '" ++ key ++ lit "')").

(** The TypeError of calling [trim] on a value that has none. *)
Definition trimError (name : string) : exn :=
  MkExn None (lit name ++ lit ".trim is not a function").

(** The fields of an object, the first entry for a key being its value. *)
Fixpoint lookup (key : jsstring) (fields : list (jsstring * json)) : value :=
  match fields with
  | [] => None
  | (k, j) :: rest => if str_eq_dec key k then Some j else lookup key rest
  end.

(** [args.key], for the property names the dispatchers read, none of which
    a string, a number, a boolean or an array has: [undefined] unless
    [args] is an object with that key, and a TypeError when [args] is
    [null]. *)
Definition getProp (args : json) (key : jsstring) : completion value :=
  match args with
  | JNull => Throw (nullArgsError key)
  | JObj fields => Normal (lookup key fields)
  | _ => Normal None
  end.

(** Sequencing of calls that may throw. *)
Definition bind {A B : Type} (c : completion A) (k : A -> completion B)
  : completion B :=
  match c with
  | Normal a => k a
  | Throw e => Throw e
  end.

Record ToolCall := MkToolCall {
  tc_id : jsstring;
  tc_name : jsstring;
  tc_arguments : jsstring
}.

(** The assistant message of a response; [content] may be null and
    [tool_calls] may be absent. *)
Record AssistantMessage := MkAssistant {
  content : option jsstring;
  tool_calls : option (list ToolCall)
}.

Inductive Message :=
| UserMsg (text : jsstring)
| AssistantMsg (m : AssistantMessage)
| ToolMsg (tool_call_id : jsstring) (result : jsstring).

(* ================================================================== *)
(** * A concrete host for examples *)
(* ================================================================== *)

(** A small host on which the handlers can be run: slash-separated paths
    resolved from the root of the tree, and a small regular expression
    engine. *)
Module Demo.

Definition SLASH : cu := 47%N.

Fixpoint components (s cur : jsstring) : list jsstring :=
  match s with
  | [] => [rev cur]
  | c :: s' =>
      if cu_eqb c SLASH then rev cur :: components s' []
      else components s' (c :: cur)
  end.

Fixpoint walkNames (stack names : list jsstring) : path :=
  match names with
  | [] => rev stack
  | n :: ns =>
      if str_eq_dec n [] then walkNames stack ns
      else if str_eq_dec n (lit ".") then walkNames stack ns
      else if str_eq_dec n (lit "..") then walkNames (tl stack) ns
      else walkNames (n :: stack) ns
  end.

Definition resolve (p : jsstring) : path := walkNames [] (components p []).

Definition path_join (a b : jsstring) : jsstring :=
  if str_eq_dec a (lit ".") then b else a ++ [SLASH] ++ b.

Definition path_basename (p : jsstring) : jsstring :=
  last (components p []) [].

Definition path_dirname (p : jsstring) : jsstring :=
  match join (removelast (components p [])) [SLASH] with
  | [] => if startsWith p [SLASH] then [SLASH] else lit "."
  | d => d
  end.

Definition regexp_error (pattern : jsstring) : option jsstring :=
  if str_eq_dec pattern (lit "(") then
    Some (lit "Invalid regular expression: /(/i: Unterminated group")
  else None.

(** Patterns of the fragment above are matched as ECMA-262 says; any other
    pattern is taken as a run of letters to find, case ignored. *)
Definition regexp_test (re : RegExp) (s : jsstring) : bool :=
  match fragmentTest canonicalizeAscii re s with
  | Some b => b
  | None =>
      match search_from (List.map canonicalizeAscii s)
                        (List.map canonicalizeAscii (source re)) with
      | Some _ => true
      | None => false
      end
  end.

Definition noArgs : json := JObj [].

Definition JSON_parse (payload : jsstring) : completion json :=
  if str_eq_dec payload (lit "{}") then Normal noArgs
  else if str_eq_dec payload (lit "null") then Normal JNull
  else Throw (MkExn None (lit "Unexpected token in JSON")).

Definition inspect (a : json) : jsstring := lit "{}".

(** How Node names a value it refuses. *)
Definition received (v : value) : jsstring :=
  match v with
  | None => lit "undefined"
  | Some JNull => lit "null"
  | Some (JBool b) => lit "type boolean (" ++ ToString (JBool b) ++ lit ")"
  | Some (JNum t) => lit "type number (" ++ t ++ lit ")"
  | Some (JStr s) => lit "type string ('" ++ s ++ lit "')"
  | Some (JArr _) => lit "an instance of Array"
  | Some (JObj _) => lit "an instance of Object"
  end.

(** The messages of Node's TypeError for an argument that is not a
    string. *)
Definition invalidArgMessage (api : string) (v : value) : jsstring :=
  (if String.eqb api "fs.writeFileSync" then
     lit "The " ++ [34%N] ++ lit "data" ++ [34%N]
       ++ lit " argument must be of type string or an instance of Buffer, TypedArray, or DataView."
   else if String.eqb api "path.dirname" then
     lit "The " ++ [34%N] ++ lit "path" ++ [34%N]
       ++ lit " argument must be of type string."
   else
     lit "The " ++ [34%N] ++ lit "path" ++ [34%N]
       ++ lit " argument must be of type string or an instance of Buffer or URL.")
    ++ lit " Received " ++ received v.

(** A number is taken for a file descriptor, and none is open; any other
    value is refused. *)
Definition readFileSync_bad (v : value) (fs : node) : completion jsstring :=
  match v with
  | Some (JNum _) => Throw (MkExn None (lit "EBADF: bad file descriptor, read"))
  | _ => Throw (MkExn None (invalidArgMessage "fs.readFileSync" v))
  end.

Definition writeFileSync_bad (v : value) (data : jsstring) (fs : node)
  : completion node :=
  match v with
  | Some (JNum _) => Throw (MkExn None (lit "EBADF: bad file descriptor, write"))
  | _ => Throw (MkExn None (invalidArgMessage "fs.writeFileSync path" v))
  end.

(** A model that asks for [read_file] with a payload that is not JSON. *)
Definition badPayload (ms : list Message) : completion AssistantMessage :=
  Normal (MkAssistant None
            (Some [MkToolCall (lit "call_1") (lit "read_file") (lit "{")])).

(** The payload [{"path":"a.txt"}] and a decoder that knows it. *)
Definition pathPayload : jsstring :=
  lit "{" ++ [34%N] ++ lit "path" ++ [34%N] ++ lit ":" ++ [34%N] ++ lit "a.txt"
    ++ [34%N] ++ lit "}".

Definition JSON_parse_path (payload : jsstring) : completion json :=
  if str_eq_dec payload pathPayload then
    Normal (JObj [(lit "path", JStr (lit "a.txt"))])
  else JSON_parse payload.

(** The payload [{"path":5}], a decoder that knows it, and a model that
    asks for [list_directory] with it. *)
Definition numberPayload : jsstring :=
  lit "{" ++ [34%N] ++ lit "path" ++ [34%N] ++ lit ":5}".

Definition JSON_parse_number (payload : jsstring) : completion json :=
  if str_eq_dec payload numberPayload then
    Normal (JObj [(lit "path", JNum (lit "5"))])
  else JSON_parse payload.

Definition listNumber (ms : list Message) : completion AssistantMessage :=
  Normal (MkAssistant None
            (Some [MkToolCall (lit "call_1") (lit "list_directory")
                              numberPayload])).

(** A model that asks to read [a.txt], then answers. *)
Definition readThenAnswer (ms : list Message) : completion AssistantMessage :=
  match ms with
  | [_] =>
      Normal (MkAssistant None
                (Some [MkToolCall (lit "call_1") (lit "read_file") pathPayload]))
  | _ => Normal (MkAssistant (Some (lit "done")) None)
  end.

(** A model whose every response carries an empty list of tool calls. *)
Definition emptyCalls (ms : list Message) : completion AssistantMessage :=
  Normal (MkAssistant (Some (lit "hi")) (Some [])).

(** [dir/notes.txt] holds three lines; [empty] is an empty directory;
    [a.txt] and [b.txt] hold a few letters. *)
Definition tree : node :=
  Dir true true
      [(lit "dir",
        Dir true true
            [(lit "notes.txt", File true true (lit "foo" ++ NL ++ lit "bar" ++ NL ++ lit "foo" ++ NL))]);
       (lit "empty", Dir true true []);
       (lit "a.txt", File true true (lit "xay"));
       (lit "b.txt", File true true (lit "ab"))].

(** One file of fifty lines, each of them [a]. *)
Definition fiftyLines : node :=
  Dir true true
      [(lit "f.txt", File true true (join (repeat (lit "a") 50) NL))].

End Demo.

(* ================================================================== *)
(** * The tool handlers and the turn loop *)
(* ================================================================== *)

Section Host.

Variable resolve : jsstring -> path.
(** [path.join], [path.basename], [path.dirname]. *)
Variable path_join : jsstring -> jsstring -> jsstring.
Variable path_basename : jsstring -> jsstring.
Variable path_dirname : jsstring -> jsstring.
(** The regular expression engine: the message of the SyntaxError that
    [new RegExp(pattern, "i")] throws, if it throws, and [test]. *)
Variable regexp_error : jsstring -> option jsstring.
Variable regexp_test : RegExp -> jsstring -> bool.

Notation readFileSync := (readFileSync resolve).
Notation readdirSync := (readdirSync resolve).
Notation writeFileSync := (writeFileSync resolve).
Notation mkdirSync := (mkdirSync resolve).
Notation statSync := (statSync resolve).
Notation unlinkSync := (unlinkSync resolve).
Notation rmdirSync := (rmdirSync resolve).

(** ** The tool handlers *)

(** [p && p.trim() ? p : "."] *)
Definition orCurrent (p : jsstring) : jsstring :=
  if truthy p && truthy (trim p) then p else lit ".".

Definition readFileTool (p : jsstring) (fs : node) : jsstring :=
  match readFileSync p fs with
  | Normal data => data
  | Throw e =>
      if isENOENT e then lit "Error: File not found: " ++ p
      else lit "Error reading file: " ++ message e
  end.

Definition listDirectoryTool (p : jsstring) (fs : node) : jsstring :=
  let dir := orCurrent p in
  match readdirSync dir fs with
  | Normal es => join (List.map fst es) NL
  | Throw e =>
      if isENOENT e then lit "Error: Directory not found: " ++ dir
      else lit "Error listing directory: " ++ message e
  end.

(** [walk(current)], on the node [current] resolves to.  The files come
    with the node each path names, which is what reading that path later
    yields; the second component lists the [fs] calls made. *)
Fixpoint walk (current : jsstring) (n : node) {struct n}
  : list (jsstring * node) * list access :=
  match n with
  | Dir true _ es =>
      let fix each (es : list entry) : list (jsstring * node) * list access :=
        match es with
        | [] => ([], [])
        | (name, child) :: es' =>
            let full := path_join current name in
            let here :=
              match child with
              | Dir _ _ _ => walk full child
              | File _ _ _ => ([(full, child)], [])
              | Other => ([], [])
              end in
            let rest := each es' in
            (fst here ++ fst rest, snd here ++ snd rest)
        end in
      let r := each es in
      (fst r, Readdir current :: snd r)
  | _ => ([], [Readdir current])
  end.

Definition walkFiles (rootDir : jsstring) (fs : node)
  : list (jsstring * node) * list access :=
  match find (resolve rootDir) fs with
  | inr n => walk rootDir n
  | inl _ => ([], [Readdir rootDir])
  end.

(** The state of the search loops: still running, or returned early. *)
Inductive scan :=
| Continue (results : list jsstring)
| Return (results : list jsstring).

Definition resultLine (filePath : jsstring) (i : nat) (line : jsstring)
  : jsstring :=
  filePath ++ lit ":" ++ decimal (N.of_nat (i + 1)) ++ lit ": " ++ line.

Definition TRUNCATED : jsstring := lit "... (truncated, more results available)".

(** The inner loop of [searchTool], from line index [i]. *)
Fixpoint scanLines (regex : RegExp) (filePath : jsstring)
         (lines : list jsstring) (i : nat) (results : list jsstring) : scan :=
  match lines with
  | [] => Continue results
  | line :: rest =>
      if regexp_test regex line then
        let results := results ++ [resultLine filePath i line] in
        if (50 <=? length results)%nat then Return (results ++ [TRUNCATED])
        else scanLines regex filePath rest (S i) results
      else scanLines regex filePath rest (S i) results
  end.

(** [fileFilter && !fileFilter.test(path.basename(filePath))] *)
Definition skipped (fileFilter : option RegExp) (filePath : jsstring) : bool :=
  match fileFilter with
  | Some f => negb (regexp_test f (path_basename filePath))
  | None => false
  end.

(** The outer loop of [searchTool]. *)
Fixpoint scanFiles (regex : RegExp) (fileFilter : option RegExp)
         (files : list (jsstring * node)) (results : list jsstring)
  : scan * list access :=
  match files with
  | [] => (Continue results, [])
  | (filePath, n) :: rest =>
      if skipped fileFilter filePath then
        scanFiles regex fileFilter rest results
      else
        match read_node filePath (inr n) with
        | Throw _ =>
            let r := scanFiles regex fileFilter rest results in
            (fst r, ReadFile filePath :: snd r)
        | Normal content =>
            match scanLines regex filePath (splitLines content) 0 results with
            | Return results' => (Return results', [ReadFile filePath])
            | Continue results' =>
                let r := scanFiles regex fileFilter rest results' in
                (fst r, ReadFile filePath :: snd r)
            end
        end
  end.

Definition fileFilterOf (filePattern : option jsstring) : option RegExp :=
  match filePattern with
  | Some fp =>
      if truthy fp && truthy (trim fp) then Some (globToRegExp (trim fp))
      else None
  | None => None
  end.

(** [searchTool]: the string returned and the [fs] calls made. *)
Definition searchTool (pattern p : jsstring) (filePattern : option jsstring)
           (fs : node) : jsstring * list access :=
  let root := orCurrent p in
  match regexp_error pattern with
  | Some msg => (lit "Invalid regex pattern: " ++ msg, [])
  | None =>
      let regex := MkRegExp pattern (lit "i") in
      let fileFilter := fileFilterOf filePattern in
      let files := walkFiles root fs in
      let r := scanFiles regex fileFilter (fst files) [] in
      let log := snd files ++ snd r in
      match fst r with
      | Return results => (join results NL, log)
      | Continue results =>
          if (length results =? 0)%nat then (lit "No matches found", log)
          else (join results NL, log)
      end
  end.

Definition writeFileTool (p content : jsstring) (fs : node) : jsstring * node :=
  match mkdirSync (path_dirname p) fs with
  | Throw e => (lit "Error writing file: " ++ message e, fs)
  | Normal fs1 =>
      match writeFileSync p content fs1 with
      | Throw e => (lit "Error writing file: " ++ message e, fs1)
      | Normal fs2 =>
          (lit "Successfully wrote " ++ decimal (byteLength content)
             ++ lit " bytes to " ++ p, fs2)
      end
  end.

(** Interpolation of a number that may be negative. *)
Definition decimalZ (z : Z) : jsstring :=
  match z with
  | Zneg q => lit "-" ++ decimal (Npos q)
  | _ => decimal (Z.to_N z)
  end.

Definition editCatch (p : jsstring) (e : exn) : jsstring :=
  if isENOENT e then lit "Error: File not found: " ++ p
  else lit "Error editing file: " ++ message e.

Definition editFileTool (p oldString newString : jsstring) (fs : node)
  : jsstring * node :=
  match readFileSync p fs with
  | Throw e => (editCatch p e, fs)
  | Normal content =>
      let idx := indexOf content oldString in
      if (idx =? -1)%Z then (lit "Error: old_string not found in " ++ p, fs)
      else
        let count := (Z.of_nat (length (split content oldString)) - 1)%Z in
        if (count >? 1)%Z then
          (lit "Error: old_string appears " ++ decimalZ count
             ++ lit " times in " ++ p ++ lit ". Must be unique.", fs)
        else
          let newContent := replace content oldString newString in
          match writeFileSync p newContent fs with
          | Throw e => (editCatch p e, fs)
          | Normal fs' => (lit "Successfully edited " ++ p, fs')
          end
  end.

Definition deleteCatch (p : jsstring) (e : exn) : jsstring :=
  if isENOENT e then lit "Error: Path not found: " ++ p
  else lit "Error deleting: " ++ message e.

Definition deleteFileTool (p : jsstring) (fs : node) : jsstring * node :=
  match statSync p fs with
  | Throw e => (deleteCatch p e, fs)
  | Normal st =>
      if isFile st then
        match unlinkSync p fs with
        | Throw e => (deleteCatch p e, fs)
        | Normal fs' => (lit "Successfully deleted file: " ++ p, fs')
        end
      else if isDirectory st then
        match rmdirSync p fs with
        | Throw e => (deleteCatch p e, fs)
        | Normal fs' => (lit "Successfully deleted directory: " ++ p, fs')
        end
      else (lit "Error: Path not found: " ++ p, fs)
  end.

(** ** The handlers on the values a payload may hold

    The handlers are declared on strings, but [executeTool] hands them
    whatever the decoded payload holds.  What Node does with an argument
    that is not a string is the host's: *)

(** [fs.readFileSync(v, "utf-8")] and [fs.writeFileSync(v, data, "utf-8")]
    for a [v] that is not a string (a TypeError, or the use of [v] as a file
    descriptor). *)
Variable readFileSync_bad : value -> node -> completion jsstring.
Variable writeFileSync_bad : value -> jsstring -> node -> completion node.
(** The message of the TypeError the named function of Node throws at an
    argument that must be a string and is not. *)
Variable invalidArgMessage : string -> value -> jsstring.

Definition invalidArg (api : string) (v : value) : exn :=
  MkExn None (invalidArgMessage api v).

Definition readFileSync_any (v : value) (fs : node) : completion jsstring :=
  match v with
  | Some (JStr p) => readFileSync p fs
  | _ => readFileSync_bad v fs
  end.

Definition writeFileSync_any (v : value) (data : jsstring) (fs : node)
  : completion node :=
  match v with
  | Some (JStr p) => writeFileSync p data fs
  | _ => writeFileSync_bad v data fs
  end.

(** [readFileTool] on any value *)
Definition readFileTool_any (p : value) (fs : node) : jsstring :=
  match readFileSync_any p fs with
  | Normal data => data
  | Throw e =>
      if isENOENT e then lit "Error: File not found: " ++ toText p
      else lit "Error reading file: " ++ message e
  end.

(** [listDirectoryTool] on any value: [p.trim()] is outside the [try], and
    a truthy value that is not a string has no [trim]. *)
Definition listDirectoryTool_any (p : value) (fs : node) : completion jsstring :=
  match p with
  | None => Normal (listDirectoryTool (lit ".") fs)
  | Some (JStr s) => Normal (listDirectoryTool s fs)
  | Some j =>
      if ToBoolean j then Throw (trimError "p")
      else Normal (listDirectoryTool (lit ".") fs)
  end.

(** [new RegExp(pattern, "i")]: an [undefined] pattern is the empty
    pattern, any other value is converted to a string. *)
Definition patternText (pattern : value) : jsstring :=
  match pattern with
  | None => []
  | Some j => ToString j
  end.

(** [searchTool] on any values: the root is computed first, then the
    pattern is compiled, then the file pattern is looked at. *)
Definition searchTool_any (pattern p filePattern : value) (fs : node)
  : completion (jsstring * list access) :=
  if truthyNonString p then Throw (trimError "p")
  else
    let root := match p with
                | Some (JStr s) => s
                | _ => lit "."
                end in
    match regexp_error (patternText pattern) with
    | Some msg => Normal (lit "Invalid regex pattern: " ++ msg, [])
    | None =>
        if truthyNonString filePattern then Throw (trimError "filePattern")
        else
          let fp := match filePattern with
                    | Some (JStr s) => Some s
                    | _ => None
                    end in
          Normal (searchTool (patternText pattern) root fp fs)
    end.

(** [writeFileTool] on any values: [path.dirname] refuses a path that is
    not a string, and [fs.writeFileSync] (of Node 14 and later) a content
    that is not one, before it opens the file and after the directories
    were made; both inside the [try]. *)
Definition writeFileTool_any (p content : value) (fs : node) : jsstring * node :=
  match p with
  | Some (JStr ps) =>
      match content with
      | Some (JStr c) => writeFileTool ps c fs
      | _ =>
          match mkdirSync (path_dirname ps) fs with
          | Throw e => (lit "Error writing file: " ++ message e, fs)
          | Normal fs1 =>
              (lit "Error writing file: "
                 ++ message (invalidArg "fs.writeFileSync" content),
               fs1)
          end
      end
  | _ =>
      (lit "Error writing file: " ++ message (invalidArg "path.dirname" p), fs)
  end.

(** [content.split(oldString)]: an [undefined] separator splits nothing. *)
Definition split_any (content : jsstring) (oldString : value) : list jsstring :=
  match oldString with
  | None => [content]
  | Some j => split content (ToString j)
  end.

(** [editFileTool] on any values *)
Definition editFileTool_any (p oldString newString : value) (fs : node)
  : jsstring * node :=
  match readFileSync_any p fs with
  | Throw e => (editCatch (toText p) e, fs)
  | Normal content =>
      let idx := indexOf content (toText oldString) in
      if (idx =? -1)%Z then
        (lit "Error: old_string not found in " ++ toText p, fs)
      else
        let count := (Z.of_nat (length (split_any content oldString)) - 1)%Z in
        if (count >? 1)%Z then
          (lit "Error: old_string appears " ++ decimalZ count
             ++ lit " times in " ++ toText p ++ lit ". Must be unique.", fs)
        else
          let newContent := replace content (toText oldString) (toText newString) in
          match writeFileSync_any p newContent fs with
          | Throw e => (editCatch (toText p) e, fs)
          | Normal fs' => (lit "Successfully edited " ++ toText p, fs')
          end
  end.

(** [deleteFileTool] on any value: [fs.statSync] refuses a path that is not
    a string. *)
Definition deleteFileTool_any (p : value) (fs : node) : jsstring * node :=
  match p with
  | Some (JStr ps) => deleteFileTool ps fs
  | _ => (deleteCatch (toText p) (invalidArg "fs.statSync" p), fs)
  end.

(** ** Dispatch *)

(** [executeTool]: the string returned and the files left, or what is
    thrown. *)
Definition executeTool (name : jsstring) (args : json) (fs : node)
  : completion (jsstring * node) :=
  if str_eq_dec name (lit "read_file") then
    bind (getProp args (lit "path")) (fun p =>
    Normal (readFileTool_any p fs, fs))
  else if str_eq_dec name (lit "list_directory") then
    bind (getProp args (lit "path")) (fun p =>
    bind (listDirectoryTool_any (orDot p) fs) (fun result =>
    Normal (result, fs)))
  else if str_eq_dec name (lit "search") then
    bind (getProp args (lit "pattern")) (fun pattern =>
    bind (getProp args (lit "path")) (fun p =>
    bind (getProp args (lit "file_pattern")) (fun filePattern =>
    bind (searchTool_any pattern (orDot p) filePattern fs) (fun result =>
    Normal (fst result, fs)))))
  else if str_eq_dec name (lit "write_file") then
    bind (getProp args (lit "path")) (fun p =>
    bind (getProp args (lit "content")) (fun content =>
    Normal (writeFileTool_any p content fs)))
  else if str_eq_dec name (lit "edit_file") then
    bind (getProp args (lit "path")) (fun p =>
    bind (getProp args (lit "old_string")) (fun oldString =>
    bind (getProp args (lit "new_string")) (fun newString =>
    Normal (editFileTool_any p oldString newString fs))))
  else if str_eq_dec name (lit "delete_file") then
    bind (getProp args (lit "path")) (fun p =>
    Normal (deleteFileTool_any p fs))
  else Normal (lit "Unknown tool: " ++ name, fs).

(** ** The conversation and the turn loop *)

(** The model client: [client.chat.completions.create] followed by
    [response.choices[0].message], on the messages sent. *)
Variable create : list Message -> completion AssistantMessage.
(** [JSON.parse] on an argument payload. *)
Variable JSON_parse : jsstring -> completion json.
(** How [console.log] renders the decoded arguments. *)
Variable inspect : json -> jsstring.

(** What the controller has done so far: the conversation, the file system,
    the lines printed, and the message sequences sent to the model. *)
Record State := MkState {
  messages : list Message;
  files : node;
  console : list jsstring;
  requests : list (list Message)
}.

(** How a loop ends: normally, by a thrown error, or by running out of
    fuel. *)
Inductive ending :=
| Finished
| Fault (e : exn)
| OutOfFuel.

(** [console.log(msg.content)] *)
Definition printed (c : option jsstring) : jsstring :=
  match c with
  | Some s => s
  | None => lit "null"
  end.

(** The preview line printed for a tool result. *)
Definition preview (result : jsstring) : jsstring :=
  lit "  -> " ++ firstn 100 result
    ++ (if (100 <? length result)%nat then lit "..." else []) ++ NL.

(** The [for (const tc of msg.tool_calls)] loop. *)
Fixpoint runCalls (tcs : list ToolCall) (st : State) : option ending * State :=
  match tcs with
  | [] => (None, st)
  | tc :: rest =>
      let name := tc_name tc in
      match JSON_parse (tc_arguments tc) with
      | Throw e => (Some (Fault e), st)
      | Normal args =>
          let out := console st
                       ++ [lit "[" ++ name ++ lit "] " ++ inspect args] in
          match executeTool name args (files st) with
          | Throw e =>
              (Some (Fault e),
               MkState (messages st) (files st) out (requests st))
          | Normal (result, fs') =>
              runCalls rest
                (MkState (messages st ++ [ToolMsg (tc_id tc) result]) fs'
                         (out ++ [preview result]) (requests st))
          end
      end
  end.

(** The [while (true)] loop of [run], for at most [fuel] model invocations. *)
Fixpoint runLoop (fuel : nat) (st : State) : ending * State :=
  match fuel with
  | O => (OutOfFuel, st)
  | S fuel' =>
      let st1 := MkState (messages st) (files st) (console st)
                         (requests st ++ [messages st]) in
      match create (messages st) with
      | Throw e => (Fault e, st1)
      | Normal msg =>
          match tool_calls msg with
          | None =>
              (Finished,
               MkState (messages st1) (files st1)
                       (console st1 ++ [printed (content msg)]) (requests st1))
          | Some tcs =>
              let st2 := MkState (messages st1 ++ [AssistantMsg msg]) (files st1)
                                 (console st1) (requests st1) in
              match runCalls tcs st2 with
              | (Some e, st3) => (e, st3)
              | (None, st3) => runLoop fuel' st3
              end
          end
      end
  end.

(** [run(promptText)] *)
Definition run (fuel : nat) (promptText : jsstring) (fs : node) : ending * State :=
  runLoop fuel (MkState [UserMsg promptText] fs [] []).

(** ** Reference notions for the statements below *)

(** The result lines of the matching lines of one file, from line index
    [i], with no bound on their number. *)
Fixpoint lineMatches (regex : RegExp) (filePath : jsstring)
         (lines : list jsstring) (i : nat) : list jsstring :=
  match lines with
  | [] => []
  | line :: rest =>
      (if regexp_test regex line then [resultLine filePath i line] else [])
        ++ lineMatches regex filePath rest (S i)
  end.

(** The result lines of one file: none if the filter rejects its base name
    or the file cannot be read. *)
Definition fileMatches (regex : RegExp) (fileFilter : option RegExp)
           (f : jsstring * node) : list jsstring :=
  if skipped fileFilter (fst f) then []
  else
    match read_node (fst f) (inr (snd f)) with
    | Normal content => lineMatches regex (fst f) (splitLines content) 0
    | Throw _ => []
    end.

(** All result lines, in traversal order and then in line order. *)
Definition allMatches (regex : RegExp) (fileFilter : option RegExp)
           (files : list (jsstring * node)) : list jsstring :=
  flat_map (fileMatches regex fileFilter) files.

(** The result lines of a search of [p], before any bound is applied. *)
Definition searchMatches (pattern p : jsstring) (filePattern : option jsstring)
           (fs : node) : list jsstring :=
  allMatches (MkRegExp pattern (lit "i")) (fileFilterOf filePattern)
             (fst (walkFiles (orCurrent p) fs)).

(** The identifiers of the tool calls an assistant message carries. *)
Definition callIds (m : AssistantMessage) : list jsstring :=
  match tool_calls m with
  | Some tcs => List.map tc_id tcs
  | None => []
  end.

(** Reading a conversation from the left with the identifiers still to be
    answered: a tool result must answer the first of them, and a user or
    assistant message must find none left.  [None] when this fails. *)
Fixpoint pendingAfter (pending : list jsstring) (ms : list Message)
  : option (list jsstring) :=
  match ms with
  | [] => Some pending
  | ToolMsg id _ :: rest =>
      match pending with
      | p :: ps => if str_eq_dec id p then pendingAfter ps rest else None
      | [] => None
      end
  | AssistantMsg m :: rest =>
      match pending with
      | [] => pendingAfter (callIds m) rest
      | _ :: _ => None
      end
  | UserMsg _ :: rest =>
      match pending with
      | [] => pendingAfter [] rest
      | _ :: _ => None
      end
  end.

(** Every tool call of the conversation is followed by its result, in
    order, and there is no other tool result. *)
Definition answered (ms : list Message) : Prop := pendingAfter [] ms = Some [].

(** Is there a directory at this place of the tree? *)
Definition isDirectoryAt (q : path) (fs : node) : bool :=
  match find q fs with
  | inr (Dir _ _ _) => true
  | _ => false
  end.

(** The tool calls a response carries. *)
Definition callsOf (m : AssistantMessage) : list ToolCall :=
  match tool_calls m with
  | Some tcs => tcs
  | None => []
  end.

(** The tool messages that answer [tcs] with [results], call by call. *)
Definition toolResults (tcs : list ToolCall) (results : list jsstring)
  : list Message :=
  List.map (fun x => ToolMsg (tc_id (fst x)) (snd x)) (combine tcs results).

(** The state in which the model has been sent the conversation. *)
Definition sent (st : State) : State :=
  MkState (messages st) (files st) (console st) (requests st ++ [messages st]).

(** What the loops return, given all the result lines still to come. *)
Definition bounded (results : list jsstring) : scan :=
  if (length results <? 50)%nat then Continue results
  else Return (firstn 50 results ++ [TRUNCATED]).

(** The pattern text [globToRegExp] puts between [^] and [$]. *)
Definition translated (glob : jsstring) : jsstring :=
  replaceQuestions (replaceStars (escapeSpecials glob)).

(** The names [executeTool] knows. *)
Definition toolNames : list jsstring :=
  [lit "read_file"; lit "list_directory"; lit "search"; lit "write_file";
   lit "edit_file"; lit "delete_file"].



(** [full] names the regular file [f] below the directory [n] that
    [current] names, through directories that can be listed. *)
Inductive reaches : jsstring -> node -> jsstring -> node -> Prop :=
| reach_file : forall current w es name rf wf data,
    In (name, File rf wf data) es ->
    reaches current (Dir true w es) (path_join current name) (File rf wf data)
| reach_dir : forall current w es name child full f,
    In (name, child) es ->
    isDirectory child = true ->
    reaches (path_join current name) child full f ->
    reaches current (Dir true w es) full f.

(** One conversation continues another. *)
Definition extends (a b : list Message) : Prop := exists more, b = a ++ more.

(** The callback of [prompt]: a line that is not blank starts a run on the
    line as typed. *)
Definition onLine (fuel : nat) (input : jsstring) (fs : node)
  : option (ending * State) :=
  if truthy (trim input) then Some (run fuel input fs) else None.

(** The runs of a session, line after line; each run works on the files the
    run before left.  A run that does not finish ends the session. *)
Fixpoint session (fuel : nat) (lines : list jsstring) (fs : node)
  : list (ending * State) :=
  match lines with
  | [] => []
  | input :: rest =>
      match onLine fuel input fs with
      | None => session fuel rest fs
      | Some (Finished, st) => (Finished, st) :: session fuel rest (files st)
      | Some r => [r]
      end
  end.

(** The entries loop of [walk]. *)
Definition walkEntries (current : jsstring) (es : list entry)
  : list (jsstring * node) * list access :=
  (fix each (es : list entry) : list (jsstring * node) * list access :=
     match es with
     | [] => ([], [])
     | (name, child) :: es' =>
         let full := path_join current name in
         let here :=
           match child with
           | Dir _ _ _ => walk full child
           | File _ _ _ => ([(full, child)], [])
           | Other => ([], [])
           end in
         let rest := each es' in
         (fst here ++ fst rest, snd here ++ snd rest)
     end) es.

Definition isReaddir (a : access) : bool :=
  match a with Readdir _ => true | ReadFile _ => false end.

(** The two wildcards of a glob. *)
Definition isWildcard (c : cu) : bool := cu_eqb c STAR || cu_eqb c QUESTION.

(** ** The turn loop of [agent.ts]

    The same loop as [run], with the dispatch written inline and no [try]
    around the file system calls: what they throw ends the run. *)
(** The dispatch written inline in [run], on the decoded payload: what
    [fs.readFileSync] and [fs.readdirSync] throw is not caught. *)
Definition dispatch_ts (name : jsstring) (args : json) (fs : node)
  : completion jsstring :=
  if str_eq_dec name (lit "read_file") then
    bind (getProp args (lit "path")) (fun p => readFileSync_any p fs)
  else if str_eq_dec name (lit "list_directory") then
    bind (getProp args (lit "path")) (fun p =>
    match orDot p with
    | Some (JStr s) => AgentTs.listDirectory resolve s fs
    | v => Throw (invalidArg "fs.readdirSync" v)
    end)
  else Normal (lit "Unknown tool").

Fixpoint runCalls_ts (tcs : list ToolCall) (st : State) : option ending * State :=
  match tcs with
  | [] => (None, st)
  | tc :: rest =>
      let name := tc_name tc in
      match JSON_parse (tc_arguments tc) with
      | Throw e => (Some (Fault e), st)
      | Normal args =>
          let out := console st
                       ++ [lit "[" ++ name ++ lit "] " ++ inspect args] in
          let st1 := MkState (messages st) (files st) out (requests st) in
          match dispatch_ts name args (files st) with
          | Throw e => (Some (Fault e), st1)
          | Normal result =>
              runCalls_ts rest
                (MkState (messages st ++ [ToolMsg (tc_id tc) result]) (files st)
                         (out ++ [preview result]) (requests st))
          end
      end
  end.

Fixpoint runLoop_ts (fuel : nat) (st : State) : ending * State :=
  match fuel with
  | O => (OutOfFuel, st)
  | S fuel' =>
      let st1 := MkState (messages st) (files st) (console st)
                         (requests st ++ [messages st]) in
      match create (messages st) with
      | Throw e => (Fault e, st1)
      | Normal msg =>
          match tool_calls msg with
          | None =>
              (Finished,
               MkState (messages st1) (files st1)
                       (console st1 ++ [printed (content msg)]) (requests st1))
          | Some tcs =>
              let st2 := MkState (messages st1 ++ [AssistantMsg msg]) (files st1)
                                 (console st1) (requests st1) in
              match runCalls_ts tcs st2 with
              | (Some e, st3) => (e, st3)
              | (None, st3) => runLoop_ts fuel' st3
              end
          end
      end
  end.

(** [run(prompt)] of [agent.ts] *)
Definition run_ts (fuel : nat) (promptText : jsstring) (fs : node)
  : ending * State :=
  runLoop_ts fuel (MkState [UserMsg promptText] fs [] []).

(** A call both agents know how to answer: [read_file], or [list_directory]
    with a path that is not blank. *)
Definition sharedCall (tc : ToolCall) : Prop :=
  (tc_name tc = lit "read_file" \/ tc_name tc = lit "list_directory")
  /\ (tc_name tc = lit "list_directory" ->
      forall args p,
        JSON_parse (tc_arguments tc) = Normal args ->
        getProp args (lit "path") = Normal (Some (JStr p)) ->
        truthy (trim p) = true).

(* ================================================================== *)
(** * Properties *)
(* ================================================================== *)

Unset Implicit Arguments.
Set Default Proof Using "Type".

(** ** Strings *)

Lemma cu_eqb_eq (a b : cu) : cu_eqb a b = true <-> a = b.
Proof. apply N.eqb_eq. Qed.

Lemma cu_eqb_refl (a : cu) : cu_eqb a a = true.
Proof. apply N.eqb_refl. Qed.

Lemma trimStart_blank (p : jsstring) :
  forallb isTrimmed p = true -> trimStart p = [].
Proof.
  induction p as [|c p IH]; simpl; [reflexivity|].
  intros H. apply andb_true_iff in H as [Hc Hp].
  rewrite Hc. now apply IH.
Qed.

Lemma trim_blank (p : jsstring) :
  forallb isTrimmed p = true -> trim p = [].
Proof.
  intros H. unfold trim. now rewrite (trimStart_blank p H).
Qed.

Lemma orCurrent_blank (p : jsstring) :
  forallb isTrimmed p = true -> orCurrent p = lit ".".
Proof.
  intros H. unfold orCurrent. rewrite (trim_blank p H). simpl.
  now rewrite andb_false_r.
Qed.

Lemma orCurrent_dot : orCurrent (lit ".") = lit ".".
Proof. reflexivity. Qed.

(** ** Failures are returned as text *)

(** What each handler of the full agent returns when a file system call it
    makes throws: the text of the error, never the error itself. *)
Lemma failures_are_returned_as_text (p : jsstring) (fs : node) (e : exn) :
  (readFileSync p fs = Throw e ->
   readFileTool p fs
   = if isENOENT e then lit "Error: File not found: " ++ p
     else lit "Error reading file: " ++ message e)
  /\ (readdirSync (orCurrent p) fs = Throw e ->
      listDirectoryTool p fs
      = if isENOENT e then lit "Error: Directory not found: " ++ orCurrent p
        else lit "Error listing directory: " ++ message e)
  /\ (mkdirSync (path_dirname p) fs = Throw e ->
      forall content,
        writeFileTool p content fs = (lit "Error writing file: " ++ message e, fs))
  /\ (readFileSync p fs = Throw e ->
      forall o n, editFileTool p o n fs = (editCatch p e, fs))
  /\ (statSync p fs = Throw e -> deleteFileTool p fs = (deleteCatch p e, fs)).
Proof.
  repeat split.
  - intros H. unfold readFileTool. now rewrite H.
  - intros H. unfold listDirectoryTool. now rewrite H.
  - intros H content. unfold writeFileTool. now rewrite H.
  - intros H o n. unfold editFileTool. now rewrite H.
  - intros H. unfold deleteFileTool. now rewrite H.
Qed.

(** ** Blank path arguments *)

(** C10: a path argument that is empty or made of white space only is
    treated by [list_directory] and by [search] exactly as the path ["."]. *)
Theorem blank_path_means_current_directory (p : jsstring) :
  forallb isTrimmed p = true ->
  forall fs : node,
    listDirectoryTool p fs = listDirectoryTool (lit ".") fs
    /\ forall (pattern : jsstring) (filePattern : option jsstring),
         searchTool pattern p filePattern fs
         = searchTool pattern (lit ".") filePattern fs.
Proof.
  intros H fs. split.
  - unfold listDirectoryTool. now rewrite (orCurrent_blank p H), orCurrent_dot.
  - intros pattern filePattern. unfold searchTool.
    now rewrite (orCurrent_blank p H), orCurrent_dot.
Qed.

(** ** Invalid search patterns *)

(** C8: when the pattern does not compile, [search] returns the error text
    at once and makes no file system call. *)
Theorem search_invalid_pattern_touches_nothing
        (pattern msg p : jsstring) (filePattern : option jsstring) (fs : node) :
  regexp_error pattern = Some msg ->
  searchTool pattern p filePattern fs
  = (lit "Invalid regex pattern: " ++ msg, []).
Proof.
  intros H. unfold searchTool. now rewrite H.
Qed.

(** ** The file system model *)

Lemma assoc_set_entry (c : jsstring) (n : node) (es : list entry) :
  assoc c (set_entry c n es) = Some n.
Proof.
  induction es as [|[k m] es IH]; simpl.
  - destruct (str_eq_dec c c); congruence.
  - destruct (str_eq_dec c k) as [->|Hne]; simpl.
    + destruct (str_eq_dec k k); congruence.
    + destruct (str_eq_dec c k); congruence.
Qed.

Lemma assoc_set_entry_other (c d : jsstring) (n : node) (es : list entry) :
  d <> c -> assoc d (set_entry c n es) = assoc d es.
Proof.
  intros Hne. induction es as [|[k m] es IH]; simpl.
  - destruct (str_eq_dec d c); congruence.
  - destruct (str_eq_dec c k) as [->|Hck]; simpl.
    + destruct (str_eq_dec d k); congruence.
    + destruct (str_eq_dec d k); congruence.
Qed.

Lemma assoc_del_entry (c : jsstring) (es : list entry) :
  assoc c (del_entry c es) = None.
Proof.
  induction es as [|[k m] es IH]; simpl; [reflexivity|].
  destruct (str_eq_dec c k) as [->|Hne]; simpl; [assumption|].
  destruct (str_eq_dec c k); congruence.
Qed.

Lemma find_app (q q' : path) (n : node) :
  find (q ++ q') n
  = match find q n with
    | inr m => find q' m
    | inl e => inl e
    end.
Proof.
  revert n. induction q as [|c q IH]; intros n; simpl; [reflexivity|].
  destruct n as [| r w es |]; try reflexivity.
  destruct (assoc c es); [apply IH | reflexivity].
Qed.

(** A successful update happened in the directory that holds the last name
    of the path, and only there. *)
Lemma at_parent_inv f (p : path) (fs fs' : node) :
  at_parent f p fs = inr fs' ->
  exists q c r w es es',
    p = q ++ [c]
    /\ find q fs = inr (Dir r w es)
    /\ f w es c = inr es'
    /\ find q fs' = inr (Dir r w es').
Proof.
  revert fs fs'. induction p as [|c p IH]; intros fs fs' H; simpl in H.
  - discriminate.
  - destruct fs as [| r w es |]; try discriminate.
    destruct p as [|c' p'].
    + destruct (f w es c) as [e|es'] eqn:Hf; [discriminate|].
      injection H as <-. exists [], c, r, w, es, es'. simpl. auto.
    + destruct (assoc c es) as [child|] eqn:Ha; [|discriminate].
      destruct (at_parent f (c' :: p') child) as [e|child'] eqn:Hc; [discriminate|].
      injection H as <-.
      destruct (IH _ _ Hc) as (q & c0 & r0 & w0 & es0 & es0' & Hp & Hq & Hf & Hq').
      exists (c :: q), c0, r0, w0, es0, es0'. repeat split.
      * simpl. now rewrite Hp.
      * simpl. now rewrite Ha.
      * assumption.
      * simpl. now rewrite assoc_set_entry.
Qed.

(** When the path names a node, an update reaches the directory holding it. *)
Lemma at_parent_found f (p : path) (fs n : node) :
  find p fs = inr n -> p <> [] ->
  exists c w es,
    assoc c es = Some n
    /\ last p [] = c
    /\ match f w es c with
       | inl e => at_parent f p fs = inl e
       | inr _ => exists fs', at_parent f p fs = inr fs'
       end.
Proof.
  revert fs. induction p as [|c p IH]; intros fs H Hne; [congruence|].
  simpl in H. destruct fs as [| r w es |]; try discriminate.
  destruct (assoc c es) as [child|] eqn:Ha; [|discriminate].
  destruct p as [|c' p'].
  - simpl in H. injection H as ->. exists c, w, es. split; [assumption|].
    split; [reflexivity|]. simpl.
    destruct (f w es c); [reflexivity | eauto].
  - destruct (IH _ H ltac:(discriminate)) as (c0 & w0 & es0 & Hn & Hl & Hf).
    exists c0, w0, es0. split; [assumption|]. split; [exact Hl|].
    change (at_parent f (c :: c' :: p') (Dir r w es))
      with (match assoc c es with
            | Some child =>
                match at_parent f (c' :: p') child with
                | inr child' => inr (Dir r w (set_entry c child' es))
                | inl e => inl e
                end
            | None => inl ENOENT
            end).
    rewrite Ha.
    destruct (f w0 es0 c0).
    + now rewrite Hf.
    + destruct Hf as [fs' ->]. eauto.
Qed.

Lemma find_last_removed f (p : path) (fs fs' : node) :
  at_parent f p fs = inr fs' ->
  (forall w es c es', f w es c = inr es' -> assoc c es' = None) ->
  find p fs' = inl ENOENT.
Proof.
  intros H Hf.
  destruct (at_parent_inv _ _ _ _ H) as (q & c & r & w & es & es' & -> & _ & Hfc & Hq').
  rewrite find_app, Hq'. simpl. now rewrite (Hf _ _ _ _ Hfc).
Qed.

Lemma unlink_entry_removes (w : bool) (es es' : list entry) (c : jsstring) :
  unlink_entry w es c = inr es' -> assoc c es' = None.
Proof.
  unfold unlink_entry. destruct (assoc c es) as [[| |]|]; try discriminate;
    destruct w; try discriminate; intros [= <-]; apply assoc_del_entry.
Qed.

Lemma rmdir_entry_removes (w : bool) (es es' : list entry) (c : jsstring) :
  rmdir_entry w es c = inr es' -> assoc c es' = None.
Proof.
  unfold rmdir_entry.
  destruct (assoc c es) as [[| ? ? [|]|]|]; try discriminate;
    destruct w; try discriminate; intros [= <-]; apply assoc_del_entry.
Qed.

(** Unlinking a path that names a file succeeds or is refused; the path is
    never reported missing. *)
Lemma unlink_file (q : path) (fs : node) r w d :
  find q fs = inr (File r w d) ->
  at_parent unlink_entry q fs = inl EBUSY
  \/ at_parent unlink_entry q fs = inl EACCES
  \/ exists fs', at_parent unlink_entry q fs = inr fs'.
Proof.
  intros H. destruct q as [|c q].
  - left. reflexivity.
  - destruct (at_parent_found unlink_entry _ _ _ H ltac:(discriminate))
      as (c0 & w0 & es0 & Ha & _ & Hf).
    unfold unlink_entry in Hf at 1. rewrite Ha in Hf.
    destruct w0; auto.
Qed.

Lemma rmdir_empty (q : path) (fs : node) r w :
  find q fs = inr (Dir r w []) ->
  at_parent rmdir_entry q fs = inl EBUSY
  \/ at_parent rmdir_entry q fs = inl EACCES
  \/ exists fs', at_parent rmdir_entry q fs = inr fs'.
Proof.
  intros H. destruct q as [|c q].
  - left. reflexivity.
  - destruct (at_parent_found rmdir_entry _ _ _ H ltac:(discriminate))
      as (c0 & w0 & es0 & Ha & _ & Hf).
    unfold rmdir_entry in Hf at 1. rewrite Ha in Hf.
    destruct w0; auto.
Qed.

Lemma rmdir_nonempty (q : path) (fs : node) r w e es :
  find q fs = inr (Dir r w (e :: es)) ->
  at_parent rmdir_entry q fs = inl (match q with [] => EBUSY | _ => ENOTEMPTY end).
Proof.
  intros H. destruct q as [|c q].
  - reflexivity.
  - destruct (at_parent_found rmdir_entry _ _ _ H ltac:(discriminate))
      as (c0 & w0 & es0 & Ha & _ & Hf).
    unfold rmdir_entry in Hf at 1. now rewrite Ha in Hf.
Qed.

(** ** [delete_file] *)

(** C9: [delete_file] unlinks a regular file and removes a directory only
    when it is empty, and says which it did; on a directory that is not
    empty it returns the text of the error [rmdir] raised and the tree is
    as before; a path that does not exist is reported as not found. *)
Theorem delete_file_by_kind (p : jsstring) (fs : node) :
  match find (resolve p) fs with
  | inr (File _ _ _) =>
      match unlinkSync p fs with
      | Normal fs' =>
          deleteFileTool p fs = (lit "Successfully deleted file: " ++ p, fs')
          /\ find (resolve p) fs' = inl ENOENT
      | Throw e =>
          deleteFileTool p fs = (lit "Error deleting: " ++ message e, fs)
      end
  | inr (Dir _ _ []) =>
      match rmdirSync p fs with
      | Normal fs' =>
          deleteFileTool p fs = (lit "Successfully deleted directory: " ++ p, fs')
          /\ find (resolve p) fs' = inl ENOENT
      | Throw e =>
          deleteFileTool p fs = (lit "Error deleting: " ++ message e, fs)
      end
  | inr (Dir _ _ (_ :: _)) =>
      let c := match resolve p with [] => EBUSY | _ => ENOTEMPTY end in
      rmdirSync p fs = Throw (sysError c "rmdir" p)
      /\ deleteFileTool p fs
         = (lit "Error deleting: " ++ code_name c ++ lit ": " ++ code_text c
              ++ lit ", rmdir '" ++ p ++ lit "'", fs)
  | inr Other => deleteFileTool p fs = (lit "Error: Path not found: " ++ p, fs)
  | inl ENOENT => deleteFileTool p fs = (lit "Error: Path not found: " ++ p, fs)
  | inl c =>
      deleteFileTool p fs
      = (lit "Error deleting: " ++ message (sysError c "stat" p), fs)
  end.
Proof.
  unfold deleteFileTool, statSync.
  destruct (find (resolve p) fs) as [c|[r w d|r w es|]] eqn:Hfind.
  - destruct c; reflexivity.
  - simpl. unfold unlinkSync.
    destruct (unlink_file _ _ _ _ _ Hfind) as [H|[H|[fs' H]]]; rewrite H.
    + reflexivity.
    + reflexivity.
    + split; [reflexivity|].
      apply (find_last_removed _ _ _ _ H). intros ? ? ? ?; apply unlink_entry_removes.
  - simpl. unfold rmdirSync. destruct es as [|e es].
    + destruct (rmdir_empty _ _ _ _ Hfind) as [H|[H|[fs' H]]]; rewrite H.
      * reflexivity.
      * reflexivity.
      * split; [reflexivity|].
        apply (find_last_removed _ _ _ _ H). intros ? ? ? ?; apply rmdir_entry_removes.
    + rewrite (rmdir_nonempty _ _ _ _ _ _ Hfind). split; [reflexivity|].
      destruct (resolve p); reflexivity.
  - reflexivity.
Qed.

(** ** [write_file] *)



Lemma write_entry_sets (data : jsstring) (w : bool) (es es' : list entry)
      (c : jsstring) :
  write_entry data w es c = inr es' ->
  (exists r fw, assoc c es' = Some (File r fw data))
  /\ (forall d, d <> c -> assoc d es' = assoc d es)
  /\ (forall r0 w0 es0, assoc c es <> Some (Dir r0 w0 es0)).
Proof.
  unfold write_entry.
  destruct (assoc c es) as [[r fw old| |]|] eqn:Ha; try discriminate.
  - destruct fw; [|discriminate]. intros [= <-]. repeat split.
    + exists r, true. apply assoc_set_entry.
    + intros d Hd. now apply assoc_set_entry_other.
    + discriminate.
  - destruct w; [|discriminate]. intros [= <-]. repeat split.
    + exists true, true. apply assoc_set_entry.
    + intros d Hd. now apply assoc_set_entry_other.
    + discriminate.
Qed.

Lemma write_puts_file (data : jsstring) (p : path) (fs fs' : node) :
  at_parent (write_entry data) p fs = inr fs' ->
  exists r w, find p fs' = inr (File r w data).
Proof.
  intros H.
  destruct (at_parent_inv _ _ _ _ H) as (q & c & r & w & es & es' & -> & _ & Hf & Hq').
  destruct (write_entry_sets _ _ _ _ _ Hf) as [(r0 & fw & Ha) _].
  exists r0, fw. rewrite find_app, Hq'. simpl. now rewrite Ha.
Qed.



(** ** The turn loop *)

Lemma pendingAfter_app (ms ms' : list Message) :
  forall pending,
    pendingAfter pending (ms ++ ms')
    = match pendingAfter pending ms with
      | Some q => pendingAfter q ms'
      | None => None
      end.
Proof.
  induction ms as [|m ms IH]; intros pending; simpl; [reflexivity|].
  destruct m as [t|a|id r]; destruct pending as [|x xs]; try reflexivity;
    try apply IH.
  destruct (str_eq_dec id x); [apply IH | reflexivity].
Qed.

Lemma pendingAfter_toolResults (tcs : list ToolCall) :
  forall (results : list jsstring) (rest : list jsstring),
    length results = length tcs ->
    pendingAfter (List.map tc_id tcs ++ rest) (toolResults tcs results)
    = Some rest.
Proof.
  unfold toolResults.
  induction tcs as [|tc tcs IH]; intros [|r results] rest Hlen;
    simpl in *; try discriminate; [reflexivity|].
  destruct (str_eq_dec (tc_id tc) (tc_id tc)); [|congruence].
  apply IH. now injection Hlen.
Qed.

(** The loop over the tool calls sends nothing to the model and, when it
    runs to its end, has appended one result per call, in order. *)
Lemma runCalls_appends (tcs : list ToolCall) :
  forall (st st' : State) (r : option ending),
    runCalls tcs st = (r, st') ->
    requests st' = requests st
    /\ (r = None ->
        exists results,
          length results = length tcs
          /\ messages st' = messages st ++ toolResults tcs results).
Proof.
  induction tcs as [|tc tcs IH]; intros st st' r H; simpl in H.
  - injection H as <- <-. split; [reflexivity|]. intros _.
    exists []. split; [reflexivity|]. unfold toolResults. simpl.
    now rewrite app_nil_r.
  - destruct (JSON_parse (tc_arguments tc)) as [args|e].
    + destruct (executeTool (tc_name tc) args (files st)) as [[result fs']|].
      * destruct (IH _ _ _ H) as [Hreq Hres]. simpl in *. split; [assumption|].
        intros Hr. destruct (Hres Hr) as (results & Hlen & Hms).
        exists (result :: results). split; [simpl; now rewrite Hlen|].
        rewrite Hms. unfold toolResults. simpl. now rewrite <- app_assoc.
      * injection H as <- <-. split; [reflexivity | discriminate].
    + injection H as <- <-. split; [reflexivity | discriminate].
Qed.

Lemma runLoop_requests_answered (fuel : nat) :
  forall st : State,
    answered (messages st) ->
    Forall answered (requests st) ->
    Forall answered (requests (snd (runLoop fuel st))).
Proof.
  induction fuel as [|fuel IH]; intros st Hms Hreq; simpl; [assumption|].
  assert (Hsent : Forall answered (requests st ++ [messages st])).
  { apply Forall_app. split; [assumption | now constructor]. }
  destruct (create (messages st)) as [msg|e]; simpl; [|assumption].
  destruct (tool_calls msg) as [tcs|] eqn:Htc; simpl; [|assumption].
  destruct (runCalls tcs _) as [[e|] st3] eqn:Hrun;
    destruct (runCalls_appends _ _ _ _ Hrun) as [Hr Hres]; simpl in *.
  - now rewrite Hr.
  - destruct (Hres eq_refl) as (results & Hlen & Hm3).
    apply IH; [|now rewrite Hr].
    unfold answered. rewrite Hm3, <- app_assoc, pendingAfter_app.
    unfold answered in Hms. rewrite Hms. simpl.
    unfold callIds. rewrite Htc.
    rewrite <- (app_nil_r (List.map tc_id tcs)).
    now apply pendingAfter_toolResults.
Qed.

(** X17: one pass of the loop.  A response without a [tool_calls] list ends
    the run at once and its content is printed.  A response with a list of k
    tool calls makes the controller append the assistant message and then,
    unless decoding or executing a call throws, which ends the run, exactly
    k tool results, carrying the identifiers of the calls in the order
    received, with no model invocation in between, before the loop invokes
    the model again.  Hence every message sequence a run sends to the model
    has each tool call answered. *)
Theorem turn_answers_every_call (fuel : nat) (st : State) :
  match create (messages st) with
  | Throw e => runLoop (S fuel) st = (Fault e, sent st)
  | Normal msg =>
      match tool_calls msg with
      | None =>
          runLoop (S fuel) st
          = (Finished,
             MkState (messages st) (files st)
                     (console st ++ [printed (content msg)])
                     (requests st ++ [messages st]))
      | Some tcs =>
          let st2 := MkState (messages st ++ [AssistantMsg msg]) (files st)
                             (console st) (requests st ++ [messages st]) in
          match fst (runCalls tcs st2) with
          | Some e =>
              runLoop (S fuel) st = (e, snd (runCalls tcs st2))
              /\ requests (snd (runCalls tcs st2)) = requests st ++ [messages st]
          | None =>
              runLoop (S fuel) st = runLoop fuel (snd (runCalls tcs st2))
              /\ requests (snd (runCalls tcs st2)) = requests st ++ [messages st]
              /\ exists results,
                   length results = length tcs
                   /\ messages (snd (runCalls tcs st2))
                      = messages st ++ AssistantMsg msg :: toolResults tcs results
          end
      end
  end
  /\ forall (promptText : jsstring) (fs : node),
       Forall answered (requests (snd (run fuel promptText fs))).
Proof.
  split.
  - simpl. destruct (create (messages st)) as [msg|e]; [|reflexivity].
    destruct (tool_calls msg) as [tcs|]; [|reflexivity].
    cbv zeta.
    destruct (runCalls tcs _) as [r st3] eqn:Hrun.
    destruct (runCalls_appends _ _ _ _ Hrun) as [Hreq Hres]. simpl in *.
    destruct r as [e|].
    + split; [reflexivity | assumption].
    + split; [reflexivity|]. split; [assumption|].
      destruct (Hres eq_refl) as (results & Hlen & Hms).
      exists results. split; [assumption|]. rewrite Hms.
      now rewrite <- app_assoc.
  - intros promptText fs. unfold run. apply runLoop_requests_answered.
    + reflexivity.
    + constructor.
Qed.

(** ** [search] *)

Lemma firstn_app_full {A : Type} (n : nat) (l l' : list A) :
  (n <= length l)%nat -> firstn n (l ++ l') = firstn n l.
Proof.
  intros H. rewrite firstn_app.
  replace (n - length l)%nat with 0%nat by lia.
  simpl. apply app_nil_r.
Qed.

Lemma scanLines_bounded (regex : RegExp) (filePath : jsstring)
      (lines : list jsstring) :
  forall (i : nat) (results : list jsstring),
    (length results < 50)%nat ->
    scanLines regex filePath lines i results
    = bounded (results ++ lineMatches regex filePath lines i).
Proof.
  unfold bounded.
  induction lines as [|line lines IH]; intros i results Hlen;
    cbn [scanLines lineMatches].
  - rewrite app_nil_r. now apply Nat.ltb_lt in Hlen as ->.
  - destruct (regexp_test regex line); cbn [app]; [|now apply IH].
    set (rl := resultLine filePath i line).
    set (lm := lineMatches regex filePath lines (S i)) in *.
    assert (Hsplit : results ++ rl :: lm = (results ++ [rl]) ++ lm)
      by now rewrite <- app_assoc.
    assert (Hone : length (results ++ [rl]) = S (length results))
      by (rewrite length_app; simpl; lia).
    destruct (Nat.leb_spec 50 (length (results ++ [rl]))) as [Hfull|Hroom].
    + rewrite Hsplit.
      destruct (Nat.ltb_spec (length ((results ++ [rl]) ++ lm)) 50) as [Hlt|_].
      * rewrite length_app in Hlt. lia.
      * rewrite firstn_app_full by assumption.
        now rewrite firstn_all2 by lia.
    + rewrite IH by lia. fold lm. now rewrite <- Hsplit.
Qed.

Lemma scanFiles_bounded (regex : RegExp) (fileFilter : option RegExp)
      (files : list (jsstring * node)) :
  forall results : list jsstring,
    (length results < 50)%nat ->
    fst (scanFiles regex fileFilter files results)
    = bounded (results ++ allMatches regex fileFilter files).
Proof.
  unfold allMatches.
  induction files as [|[filePath n] files IH]; intros results Hlen;
    cbn [scanFiles flat_map].
  - cbn [fst]. rewrite app_nil_r. unfold bounded.
    now apply Nat.ltb_lt in Hlen as ->.
  - unfold fileMatches at 1. cbn [fst snd].
    destruct (skipped fileFilter filePath); [now apply IH|].
    destruct (read_node filePath (inr n)) as [content|e];
      [|cbn [fst app]; now apply IH].
    rewrite scanLines_bounded by assumption.
    set (lm := lineMatches regex filePath (splitLines content) 0).
    set (rest := flat_map (fileMatches regex fileFilter) files) in *.
    unfold bounded at 1.
    destruct (Nat.ltb_spec (length (results ++ lm)) 50) as [Hroom|Hfull];
      cbn [fst].
    + rewrite IH by assumption. now rewrite <- app_assoc.
    + unfold bounded. rewrite app_assoc.
      destruct (Nat.ltb_spec (length ((results ++ lm) ++ rest)) 50) as [Hlt|_].
      * rewrite length_app in Hlt. lia.
      * now rewrite (firstn_app_full 50 (results ++ lm) rest Hfull).
Qed.

Lemma lineMatches_spec (regex : RegExp) (filePath : jsstring)
      (lines : list jsstring) :
  forall (i : nat) (r : jsstring),
    In r (lineMatches regex filePath lines i)
    <-> exists k line,
          nth_error lines k = Some line
          /\ regexp_test regex line = true
          /\ r = resultLine filePath (i + k) line.
Proof.
  induction lines as [|l lines IH]; intros i r; cbn [lineMatches].
  - split; [intros [] | intros (k & line & Hk & _)]. destruct k; discriminate.
  - rewrite in_app_iff, IH. split.
    + intros [H|(k & line & Hk & Ht & ->)].
      * destruct (regexp_test regex l) eqn:Ht; [|contradiction].
        destruct H as [<-|[]]. exists 0%nat, l. rewrite Nat.add_0_r. auto.
      * exists (S k), line. rewrite Nat.add_succ_r. auto.
    + intros (k & line & Hk & Ht & ->). destruct k as [|k].
      * left. injection Hk as ->. rewrite Ht, Nat.add_0_r. now left.
      * right. exists k, line. rewrite Nat.add_succ_r. auto.
Qed.

Lemma walk_reads_directory (current : jsstring) (n : node) :
  exists rest, snd (walk current n) = Readdir current :: rest.
Proof.
  destruct n as [| [|] w es |]; cbn [walk snd]; eauto.
Qed.

(** With a pattern that compiles, the search starts by listing its root. *)
Lemma search_valid_pattern_lists_root (pattern p : jsstring)
      (filePattern : option jsstring) (fs : node) :
  regexp_error pattern = None ->
  exists rest,
    snd (searchTool pattern p filePattern fs) = Readdir (orCurrent p) :: rest.
Proof.
  intros Hok. unfold searchTool. rewrite Hok.
  assert (Hw : exists rest,
             snd (walkFiles (orCurrent p) fs) = Readdir (orCurrent p) :: rest).
  { unfold walkFiles. destruct (find (resolve (orCurrent p)) fs) as [e|n].
    - now exists [].
    - apply walk_reads_directory. }
  destruct Hw as [rest Hw].
  destruct (fst (scanFiles _ _ _ _)) as [results|results];
    [destruct (length results =? 0)%nat|]; cbn [snd]; rewrite Hw;
    eexists; reflexivity.
Qed.

(** C2 (as amended): with N the number of matching lines of the files
    searched, in traversal order and then line order, each as
    [<path>:<1-based line number>: <line text>]: for N = 0 [search] returns
    the sentinel; for 0 < N < 50 the N result lines; for N >= 50 the first
    50 result lines followed by the truncation marker. *)
Theorem search_result_lines (pattern p : jsstring)
        (filePattern : option jsstring) (fs : node) :
  regexp_error pattern = None ->
  let all := searchMatches pattern p filePattern fs in
  fst (searchTool pattern p filePattern fs)
  = if (length all =? 0)%nat then lit "No matches found"
    else if (length all <? 50)%nat then join all NL
         else join (firstn 50 all ++ [TRUNCATED]) NL.
Proof.
  intros Hok all. unfold searchTool. rewrite Hok.
  rewrite scanFiles_bounded by (cbn [length]; lia). cbn [app].
  fold (searchMatches pattern p filePattern fs). fold all.
  unfold bounded.
  destruct (Nat.ltb_spec (length all) 50) as [Hroom|Hfull]; simpl.
  - destruct (length all =? 0)%nat; reflexivity.
  - destruct (Nat.eqb_spec (length all) 0); [lia | reflexivity].
Qed.

(** ** The glob translation *)

Lemma existsb_false_In {A : Type} (f : A -> bool) (l : list A) (x : A) :
  existsb f l = false -> In x l -> f x = false.
Proof.
  intros H Hin. destruct (f x) eqn:Hf; [|reflexivity].
  assert (existsb f l = true) by (apply existsb_exists; eauto). congruence.
Qed.

Lemma existsb_eqb_In (c : cu) (l : list cu) :
  existsb (cu_eqb c) l = true -> In c l.
Proof.
  intros H. apply existsb_exists in H as (x & Hin & Heq).
  apply cu_eqb_eq in Heq. now subst.
Qed.

(** Every syntax character of a pattern is escaped by [globToRegExp], or is
    one of the two wildcards it translates. *)
Lemma syntax_character_handled (c : cu) :
  isSyntaxCharacter c = true ->
  isEscaped c = true \/ c = STAR \/ c = QUESTION.
Proof.
  intros H. apply existsb_eqb_In in H. simpl in H.
  repeat (destruct H as [<-|H]; [auto|]). contradiction.
Qed.

Lemma escaped_is_syntax (c : cu) :
  isEscaped c = true ->
  isSyntaxCharacter c = true /\ cu_eqb c STAR = false /\ cu_eqb c QUESTION = false.
Proof.
  intros H. apply existsb_eqb_In in H. simpl in H.
  repeat (destruct H as [<-|H]; [auto|]). contradiction.
Qed.

Lemma plain_is_not_syntax (c : cu) :
  isEscaped c = false -> cu_eqb c STAR = false -> cu_eqb c QUESTION = false ->
  isSyntaxCharacter c = false.
Proof.
  intros He Hs Hq. destruct (isSyntaxCharacter c) eqn:H; [|reflexivity].
  destruct (syntax_character_handled c H) as [H1|[->| ->]];
    [congruence | discriminate | discriminate].
Qed.

Lemma parseBody_escape (c : cu) (rest : jsstring) :
  isSyntaxCharacter c = true ->
  parseBody (BACKSLASH :: c :: rest) = option_map (cons (Lit c)) (parseBody rest).
Proof. intros H. cbn [parseBody]. change (cu_eqb BACKSLASH BACKSLASH) with true.
  cbv iota. now rewrite H. Qed.

Lemma parseBody_star (rest : jsstring) :
  parseBody (DOT :: STAR :: rest) = option_map (cons AnyRun) (parseBody rest).
Proof. reflexivity. Qed.

Lemma parseBody_dot (d : cu) (rest : jsstring) :
  cu_eqb d STAR = false ->
  parseBody (DOT :: d :: rest) = option_map (cons AnyChar) (parseBody (d :: rest)).
Proof.
  intros H. cbn [parseBody]. change (cu_eqb DOT BACKSLASH) with false.
  change (cu_eqb DOT DOT) with true. cbv iota. now rewrite H.
Qed.

Ltac in_list := simpl; repeat (first [left; reflexivity | right]).

Lemma parseBody_plain (c : cu) (rest : jsstring) :
  isSyntaxCharacter c = false ->
  parseBody (c :: rest) = option_map (cons (Lit c)) (parseBody rest).
Proof.
  intros H. cbn [parseBody].
  rewrite (existsb_false_In _ _ BACKSLASH H) by in_list.
  rewrite (existsb_false_In _ _ DOT H) by in_list.
  rewrite (existsb_false_In _ _ DOLLAR H) by in_list.
  now rewrite H.
Qed.

Lemma translated_cons (c : cu) (g : jsstring) :
  translated (c :: g)
  = (if isEscaped c then [BACKSLASH; c]
     else if cu_eqb c STAR then [DOT; STAR]
          else if cu_eqb c QUESTION then [DOT] else [c])
      ++ translated g.
Proof.
  unfold translated, replaceQuestions, replaceStars, escapeSpecials.
  cbn [flat_map]. rewrite !flat_map_app. f_equal.
  destruct (isEscaped c) eqn:He.
  - destruct (escaped_is_syntax c He) as (_ & Hs & Hq).
    cbn [flat_map app]. change (cu_eqb BACKSLASH STAR) with false.
    rewrite Hs. cbn [flat_map app]. change (cu_eqb BACKSLASH QUESTION) with false.
    now rewrite Hq.
  - cbn [flat_map app]. destruct (cu_eqb c STAR) eqn:Hs.
    + reflexivity.
    + cbn [flat_map app]. destruct (cu_eqb c QUESTION); reflexivity.
Qed.

Lemma translated_head (g : jsstring) :
  exists d rest, translated g ++ [DOLLAR] = d :: rest /\ cu_eqb d STAR = false.
Proof.
  destruct g as [|c g].
  - exists DOLLAR, []. split; reflexivity.
  - rewrite translated_cons. destruct (isEscaped c) eqn:He.
    + eexists _, _. split; reflexivity.
    + destruct (cu_eqb c STAR) eqn:Hs.
      * eexists _, _. split; reflexivity.
      * destruct (cu_eqb c QUESTION); eexists _, _; split;
          try reflexivity; assumption.
Qed.

Lemma parseBody_translated (g : jsstring) :
  parseBody (translated g ++ [DOLLAR]) = Some (List.map atomOfGlob g).
Proof.
  induction g as [|c g IH]; [reflexivity|].
  rewrite translated_cons. unfold atomOfGlob at 1. cbn [List.map].
  destruct (isEscaped c) eqn:He.
  - destruct (escaped_is_syntax c He) as (Hsyn & Hs & Hq).
    cbn [app]. rewrite (parseBody_escape _ _ Hsyn), IH, Hs, Hq. reflexivity.
  - destruct (cu_eqb c STAR) eqn:Hs.
    + cbn [app]. now rewrite parseBody_star, IH.
    + destruct (cu_eqb c QUESTION) eqn:Hq; cbn [app].
      * destruct (translated_head g) as (d & rest & Heq & Hd).
        rewrite Heq in *. now rewrite (parseBody_dot _ _ Hd), IH.
      * rewrite parseBody_plain, IH by now apply plain_is_not_syntax.
        reflexivity.
Qed.

Lemma parse_globToRegExp (glob : jsstring) :
  parseAnchored (source (globToRegExp glob)) = Some (List.map atomOfGlob glob).
Proof.
  unfold globToRegExp. cbn [source app parseAnchored].
  change (cu_eqb CARET CARET) with true. cbv iota.
  apply parseBody_translated.
Qed.

Lemma matchAtoms_anyrun (canon : cu -> cu) (rest : list atom) (s : jsstring) :
  matchAtoms canon (AnyRun :: rest) s
  = matchAtoms canon rest s
    || match s with
       | x :: s' => notLineTerminator x && matchAtoms canon (AnyRun :: rest) s'
       | [] => false
       end.
Proof. destruct s; reflexivity. Qed.

Lemma anyrun_iff (canon : cu -> cu) (rest : list atom) (s : jsstring) :
  matchAtoms canon (AnyRun :: rest) s = true
  <-> exists pre post,
        s = pre ++ post
        /\ forallb notLineTerminator pre = true
        /\ matchAtoms canon rest post = true.
Proof.
  split.
  - induction s as [|x s IH]; rewrite matchAtoms_anyrun; intros H;
      apply orb_true_iff in H as [H|H].
    + exists [], []. auto.
    + discriminate.
    + exists [], (x :: s). auto.
    + apply andb_true_iff in H as [Hx Hs].
      destruct (IH Hs) as (pre & post & -> & Hpre & Hpost).
      exists (x :: pre), post. simpl. rewrite Hx, Hpre. auto.
  - intros (pre & post & -> & Hpre & Hpost).
    induction pre as [|x pre IH]; rewrite matchAtoms_anyrun.
    + simpl. now rewrite Hpost.
    + simpl in Hpre. apply andb_true_iff in Hpre as [Hx Hpre].
      cbn [app]. rewrite Hx, (IH Hpre). apply orb_true_r.
Qed.

(** The atoms of a glob match a name exactly when the glob does, with the
    wildcards ranging over the code units that are not line terminators. *)
Lemma matchAtoms_glob (canon : cu -> cu) (g : jsstring) :
  forall name : jsstring,
    matchAtoms canon (List.map atomOfGlob g) name = true
    <-> globMatches canon notLineTerminator g name.
Proof.
  induction g as [|c g IH]; intros name.
  - destruct name; simpl; split; intros H; try constructor;
      try discriminate; inversion H.
  - cbn [List.map]. unfold atomOfGlob at 1.
    destruct (N.eqb_spec c STAR) as [->|Hns];
      [|destruct (N.eqb_spec c QUESTION) as [->|Hnq]].
    + change (cu_eqb STAR STAR) with true. cbv iota.
      rewrite anyrun_iff. split.
      * intros (pre & post & -> & Hpre & Hpost).
        constructor; [assumption | now apply IH].
      * intros H. inversion H; subst.
        -- do 2 eexists. split; [reflexivity|].
           split; [eassumption | now apply IH].
        -- congruence.
    + change (cu_eqb QUESTION STAR) with false.
      change (cu_eqb QUESTION QUESTION) with true. cbv iota.
      destruct name as [|x name]; simpl.
      * split; [discriminate | intros H; inversion H; congruence].
      * rewrite andb_true_iff, IH. split.
        -- intros [Hx Hrest]. now constructor.
        -- intros H. inversion H; subst; try congruence; split; assumption.
    + unfold cu_eqb at 1. destruct (N.eqb_spec c STAR); [contradiction|].
      unfold cu_eqb at 1. destruct (N.eqb_spec c QUESTION); [contradiction|].
      destruct name as [|x name]; simpl.
      * split; [discriminate | intros H; inversion H; congruence].
      * rewrite andb_true_iff, cu_eqb_eq, IH. split.
        -- intros [Hx Hrest]. now constructor.
        -- intros H. inversion H; subst; try congruence; split; assumption.
Qed.

(** C6 (as amended): [globToRegExp] escapes every syntax character of the
    pattern language, turns [*] into a run of code units and [?] into one
    code unit, neither of which may be a line terminator, and the pattern
    is anchored at both ends and ignores case; [search] applies it to the
    base name of each file.  So ["*.txt"] matches ["a.txt"] and not
    ["a.txt.bak"], and ["a?c.txt"] matches ["abc.txt"] and not ["ac.txt"]. *)
Theorem glob_filter_matches_base_name (canon : cu -> cu) (glob : jsstring) :
  (forall re s b, fragmentTest canon re s = Some b -> regexp_test re s = b) ->
  (forall c, isSyntaxCharacter c = true ->
             isEscaped c = true \/ c = STAR \/ c = QUESTION)
  /\ (forall name,
        regexp_test (globToRegExp glob) name = true
        <-> globMatches canon notLineTerminator glob name)
  /\ (forall filePath,
        skipped (Some (globToRegExp glob)) filePath = false
        <-> globMatches canon notLineTerminator glob (path_basename filePath))
  /\ fragmentTest canonicalizeAscii (globToRegExp (lit "*.txt")) (lit "a.txt")
     = Some true
  /\ fragmentTest canonicalizeAscii (globToRegExp (lit "*.txt")) (lit "a.txt.bak")
     = Some false
  /\ fragmentTest canonicalizeAscii (globToRegExp (lit "a?c.txt")) (lit "abc.txt")
     = Some true
  /\ fragmentTest canonicalizeAscii (globToRegExp (lit "a?c.txt")) (lit "ac.txt")
     = Some false.
Proof.
  intros Hengine.
  assert (Htest : forall name,
             regexp_test (globToRegExp glob) name
             = matchAtoms canon (List.map atomOfGlob glob) name).
  { intros name. apply Hengine. unfold fragmentTest.
    destruct (str_eq_dec (flags (globToRegExp glob)) (lit "i")) as [_|Hne];
      [|now elim Hne].
    now rewrite parse_globToRegExp. }
  split; [exact syntax_character_handled|].
  split; [intros name; rewrite Htest; apply matchAtoms_glob|].
  split; [|repeat split; reflexivity].
  intros filePath. unfold skipped. rewrite negb_false_iff, Htest.
  apply matchAtoms_glob.
Qed.

(** ** Occurrences and [edit_file] *)

Lemma startsWith_split (p : jsstring) :
  forall s, startsWith s p = true -> s = p ++ skipn (length p) s.
Proof.
  induction p as [|x p IH]; intros s H; [reflexivity|].
  destruct s as [|y s]; [discriminate|]. simpl in H.
  apply andb_true_iff in H as [Hxy Hp]. apply cu_eqb_eq in Hxy. subst y.
  simpl. f_equal. now apply IH.
Qed.

Lemma search_from_split (old : jsstring) :
  forall s i,
    search_from s old = Some i ->
    s = firstn i s ++ old ++ skipn (i + length old) s.
Proof.
  induction s as [|c s IH]; intros i H.
  - destruct old; simpl in H; [|discriminate]. now injection H as <-.
  - cbn [search_from] in H. destruct (startsWith (c :: s) old) eqn:Hs.
    + injection H as <-. cbn [firstn app Nat.add].
      now apply startsWith_split.
    + destruct (search_from s old) as [j|] eqn:Hj; [|discriminate].
      injection H as <-. simpl. f_equal. now apply IH.
Qed.

Lemma occurrences_skip_skipn (old : jsstring) :
  old <> [] ->
  forall s k, occurrences_skip old s k = occurrences old (skipn k s).
Proof.
  intros Hne. unfold occurrences.
  induction s as [|c s IH]; intros k.
  - destruct k; simpl; destruct old; congruence.
  - destruct k; [reflexivity|]. simpl. apply IH.
Qed.

Lemma occurrences_none (old : jsstring) :
  old <> [] ->
  forall s, search_from s old = None -> occurrences old s = 0%nat.
Proof.
  intros Hne. unfold occurrences.
  induction s as [|c s IH]; intros H.
  - destruct old; [congruence | reflexivity].
  - cbn [search_from] in H. cbn [occurrences_skip].
    destruct (startsWith (c :: s) old); [discriminate|].
    destruct (search_from s old); [discriminate|]. now apply IH.
Qed.

Lemma occurrences_some (old : jsstring) :
  old <> [] ->
  forall s i,
    search_from s old = Some i ->
    occurrences old s = S (occurrences old (skipn (i + length old) s)).
Proof.
  intros Hne.
  induction s as [|c s IH]; intros i H.
  - destruct old; [congruence | discriminate].
  - cbn [search_from] in H. unfold occurrences at 1. cbn [occurrences_skip].
    destruct (startsWith (c :: s) old) eqn:Hs.
    + injection H as <-. rewrite occurrences_skip_skipn by assumption.
      destruct old as [|x old]; [congruence|]. simpl.
      now rewrite Nat.sub_0_r.
    + destruct (search_from s old) as [j|] eqn:Hj; [|discriminate].
      injection H as <-. simpl. now apply IH.
Qed.

Lemma startsWith_length (p : jsstring) :
  forall s, startsWith s p = true -> (length p <= length s)%nat.
Proof.
  induction p as [|x p IH]; intros s H; simpl; [lia|].
  destruct s as [|y s]; [discriminate|]. simpl in H.
  apply andb_true_iff in H as [_ Hp]. apply IH in Hp. simpl. lia.
Qed.

Lemma search_from_bound (old : jsstring) :
  forall s i, search_from s old = Some i -> (i + length old <= length s)%nat.
Proof.
  induction s as [|c s IH]; intros i H.
  - destruct old; simpl in H; [|discriminate]. injection H as <-. simpl. lia.
  - cbn [search_from] in H. destruct (startsWith (c :: s) old) eqn:Hs.
    + injection H as <-. now apply startsWith_length.
    + destruct (search_from s old) as [j|] eqn:Hj; [|discriminate].
      injection H as <-. specialize (IH j eq_refl). simpl. lia.
Qed.

(** What the source computes as [content.split(old).length - 1] is the
    number of occurrences, for every [old] that is not empty. *)
Lemma split_counts_occurrences (old : jsstring) :
  old <> [] ->
  forall s, length (split s old) = S (occurrences old s).
Proof.
  intros Hne s. unfold split. destruct old as [|x old]; [congruence|].
  set (sep := x :: old) in *.
  assert (H : forall fuel s, (length s <= fuel)%nat ->
                length (split_from fuel s sep) = S (occurrences sep s)).
  { induction fuel as [|fuel IH]; intros s0 Hlen; simpl.
    - destruct s0; [|simpl in Hlen; lia]. reflexivity.
    - destruct (search_from s0 sep) as [i|] eqn:Hi.
      + simpl. rewrite (occurrences_some sep Hne s0 i Hi). f_equal.
        apply IH. pose proof (search_from_bound sep s0 i Hi) as Hb.
        rewrite length_skipn. subst sep. simpl in *. lia.
      + now rewrite (occurrences_none sep Hne s0 Hi). }
  now apply H.
Qed.

Lemma getSubstitution_plain (matched str : jsstring) (position : nat)
      (template : jsstring) :
  forallb (fun c => negb (cu_eqb c DOLLAR)) template = true ->
  getSubstitution matched str position template = template.
Proof.
  induction template as [|c t IH]; intros H; [reflexivity|].
  simpl in H. apply andb_true_iff in H as [Hc Ht].
  apply negb_true_iff in Hc. cbn [getSubstitution]. rewrite Hc.
  now rewrite (IH Ht).
Qed.

Lemma decimalZ_of_nat (n : nat) : decimalZ (Z.of_nat n) = decimal (N.of_nat n).
Proof.
  rewrite <- nat_N_Z. unfold decimalZ.
  destruct (Z.of_N (N.of_nat n)) eqn:Hz; try (rewrite <- Hz; now rewrite N2Z.id).
  pose proof (N2Z.is_nonneg (N.of_nat n)). lia.
Qed.

(** X16: what [edit_file] does when [old_string] is not empty and [new_string]
    holds no dollar sign: none, one or several occurrences give the not
    found error, the replacement of that occurrence, or the error that
    names their number; the file changes in the second case only. *)
Lemma edit_file_on_plain_arguments
      (p oldString newString content : jsstring) (fs : node) :
  oldString <> [] ->
  forallb (fun c => negb (cu_eqb c DOLLAR)) newString = true ->
  readFileSync p fs = Normal content ->
  match occurrences oldString content with
  | 0%nat =>
      editFileTool p oldString newString fs
      = (lit "Error: old_string not found in " ++ p, fs)
  | 1%nat =>
      exists pre post,
        content = pre ++ oldString ++ post
        /\ match writeFileSync p (pre ++ newString ++ post) fs with
           | Normal fs' =>
               editFileTool p oldString newString fs
               = (lit "Successfully edited " ++ p, fs')
               /\ exists r w,
                    find (resolve p) fs' = inr (File r w (pre ++ newString ++ post))
           | Throw e =>
               editFileTool p oldString newString fs = (editCatch p e, fs)
           end
  | S (S k) =>
      editFileTool p oldString newString fs
      = (lit "Error: old_string appears " ++ decimal (N.of_nat (S (S k)))
           ++ lit " times in " ++ p ++ lit ". Must be unique.", fs)
  end.
Proof.
  intros Hne Hplain Hread. unfold editFileTool. rewrite Hread.
  unfold indexOf, replace.
  rewrite (split_counts_occurrences oldString Hne content).
  destruct (search_from content oldString) as [i|] eqn:Hi.
  - rewrite (occurrences_some oldString Hne content i Hi).
    set (k := occurrences oldString (skipn (i + length oldString) content)).
    destruct (Z.eqb_spec (Z.of_nat i) (-1)) as [Hneg|_]; [lia|].
    replace (Z.of_nat (S (S k)) - 1)%Z with (Z.of_nat (S k)) by lia.
    destruct k as [|k].
    + change (Z.of_nat 1 >? 1)%Z with false. cbv iota.
      rewrite (getSubstitution_plain _ _ _ _ Hplain).
      exists (firstn i content), (skipn (i + length oldString) content).
      split; [now apply search_from_split|].
      unfold writeFileSync.
      destruct (at_parent _ (resolve p) fs) as [e|fs'] eqn:Hw; [reflexivity|].
      split; [reflexivity|]. apply (write_puts_file _ _ _ _ Hw).
    + destruct (Z.gtb_spec (Z.of_nat (S (S k))) 1) as [_|Hle]; [|lia].
      now rewrite decimalZ_of_nat.
  - rewrite (occurrences_none oldString Hne content Hi). reflexivity.
Qed.

(** ** Writes and deletions leave the other files alone *)







(** [mkdir -p] makes directories only: the files are those there were. *)
Lemma mkdirp_frame (p : path) :
  forall (fs fs' : node) (q : path) r w d,
    mkdirp p fs = inr fs' ->
    (find q fs = inr (File r w d) <-> find q fs' = inr (File r w d)).
Proof.
  induction p as [|c p IH]; intros fs fs' q r w d H; simpl in H.
  - destruct fs; try discriminate. now injection H as <-.
  - destruct fs as [| r0 w0 es |]; try discriminate.
    assert (Hstep : forall child child',
               (assoc c es = Some child \/
                (assoc c es = None /\ child = Dir true true [])) ->
               mkdirp p child = inr child' ->
               (find q (Dir r0 w0 es) = inr (File r w d)
                <-> find q (Dir r0 w0 (set_entry c child' es)) = inr (File r w d))).
    { intros child child' Hchild Hc.
      destruct q as [|x q]; [split; discriminate|].
      change (find (x :: q) (Dir r0 w0 es))
        with (match assoc x es with Some ch => find q ch | None => inl ENOENT end).
      change (find (x :: q) (Dir r0 w0 (set_entry c child' es)))
        with (match assoc x (set_entry c child' es) with
              | Some ch => find q ch | None => inl ENOENT end).
      destruct (str_eq_dec x c) as [->|Hne].
      - rewrite assoc_set_entry.
        destruct Hchild as [Ha|[Ha ->]]; rewrite Ha.
        + apply (IH _ _ _ _ _ _ Hc).
        + rewrite <- (IH _ _ q r w d Hc).
          split; [discriminate|]. destruct q; discriminate.
      - now rewrite (assoc_set_entry_other _ _ _ _ Hne). }
    destruct (assoc c es) as [child|] eqn:Ha.
    + destruct (mkdirp p child) as [e|child'] eqn:Hc; [discriminate|].
      injection H as <-. apply (Hstep child child'); auto.
    + destruct w0; [|discriminate].
      destruct (mkdirp p (Dir true true [])) as [e|child'] eqn:Hc; [discriminate|].
      injection H as <-. apply (Hstep (Dir true true []) child'); auto.
Qed.


(** ** What the tools do one after another *)

Lemma write_entry_readable (data : jsstring) (p : path) (fs fs' : node) :
  at_parent (write_entry data) p fs = inr fs' ->
  exists r w,
    find p fs' = inr (File r w data)
    /\ (r = false -> exists w0 d0, find p fs = inr (File false w0 d0)).
Proof.
  intros H.
  destruct (at_parent_inv _ _ _ _ H)
    as (q & c & r & w & es & es' & -> & Hq & Hf & Hq').
  rewrite !find_app, Hq, Hq'. simpl. unfold write_entry in Hf.
  destruct (assoc c es) as [[r0 fw old| |]|] eqn:Ha; try discriminate.
  - destruct fw; [|discriminate]. injection Hf as <-.
    rewrite assoc_set_entry. exists r0, true. split; [reflexivity|].
    intros ->. eauto.
  - destruct w; [|discriminate]. injection Hf as <-.
    rewrite assoc_set_entry. exists true, true. split; [reflexivity|].
    discriminate.
Qed.

Lemma head_differs (a b x y : jsstring) (c d : cu) :
  a = c :: x -> b = d :: y -> c <> d -> a <> b.
Proof. intros -> -> Hne [= H _]. contradiction. Qed.

Lemma toWellFormed_fixed (s : jsstring) :
  isWellFormed s = true -> toWellFormed s = s.
Proof.
  enough (H : forall n s, (length s <= n)%nat ->
                          isWellFormed s = true -> toWellFormed s = s)
    by (apply (H (length s)); lia).
  clear s. induction n as [|n IH]; intros [|c s] Hlen; try reflexivity.
  - simpl in Hlen. lia.
  - simpl in Hlen. cbn [isWellFormed toWellFormed].
    destruct (isHighSurrogate c).
    + destruct s as [|d s]; [discriminate|].
      destruct (isLowSurrogate d); [|discriminate].
      cbn [andb]. intros H. rewrite (IH s); [reflexivity| |exact H].
      simpl in Hlen. lia.
    + destruct (isLowSurrogate c); [discriminate|].
      cbn [negb andb]. intros H. rewrite (IH s); [reflexivity| |exact H]. lia.
Qed.

Lemma utf8Encode_replacement (s : jsstring) :
  utf8Encode (REPLACEMENT :: s) = utf8_of_codepoint REPLACEMENT ++ utf8Encode s.
Proof. reflexivity. Qed.

(** Reading back changes no byte: the text read has the encoding of the
    text written. *)
Lemma utf8Encode_toWellFormed (s : jsstring) :
  utf8Encode (toWellFormed s) = utf8Encode s.
Proof.
  enough (H : forall n s, (length s <= n)%nat ->
                          utf8Encode (toWellFormed s) = utf8Encode s)
    by (apply (H (length s)); lia).
  clear s. induction n as [|n IH]; intros [|c s] Hlen; try reflexivity.
  - simpl in Hlen. lia.
  - simpl in Hlen. cbn [toWellFormed].
    destruct (isHighSurrogate c) eqn:Hh.
    + destruct s as [|d s].
      * cbn [utf8Encode]. rewrite Hh. reflexivity.
      * destruct (isLowSurrogate d) eqn:Hl.
        -- cbn [utf8Encode]. rewrite Hh, Hl. f_equal. apply IH.
           simpl in Hlen. lia.
        -- rewrite utf8Encode_replacement, IH by lia.
           cbn [utf8Encode]. now rewrite Hh, Hl.
    + destruct (isLowSurrogate c) eqn:Hl.
      * rewrite utf8Encode_replacement, IH by lia.
        cbn [utf8Encode]. now rewrite Hh, Hl.
      * cbn [utf8Encode]. rewrite Hh, Hl. f_equal. apply IH. lia.
Qed.

(** X2: when [write_file] reports success on a path that named neither a
    file without read permission nor a special file, [read_file] of the
    same path returns the content as its UTF-8 encoding decodes: every
    surrogate that stood alone is U+FFFD, the bytes are those written, and
    a content without such a surrogate comes back exactly. *)
Theorem write_then_read (p content : jsstring) (fs : node) :
  fst (writeFileTool p content fs)
  = lit "Successfully wrote " ++ decimal (byteLength content)
      ++ lit " bytes to " ++ p ->
  (forall w d, find (resolve p) fs <> inr (File false w d)) ->
  find (resolve p) fs <> inr Other ->
  readFileTool p (snd (writeFileTool p content fs)) = toWellFormed content
  /\ utf8Encode (readFileTool p (snd (writeFileTool p content fs)))
     = utf8Encode content
  /\ (isWellFormed content = true ->
      readFileTool p (snd (writeFileTool p content fs)) = content).
Proof.
  intros Hok Hreadable _.
  assert (Hread : readFileTool p (snd (writeFileTool p content fs))
                  = toWellFormed content).
  { revert Hok. unfold writeFileTool, mkdirSync, writeFileSync.
    destruct (mkdirp (resolve (path_dirname p)) fs) as [e|fs1] eqn:Hmk.
    - intros H. exfalso. revert H.
      now apply (head_differs _ _ _ _ 69%N 83%N eq_refl eq_refl).
    - destruct (at_parent (write_entry content) (resolve p) fs1) as [e|fs2] eqn:Hw.
      + intros H. exfalso. revert H.
        now apply (head_differs _ _ _ _ 69%N 83%N eq_refl eq_refl).
      + intros _. cbn [snd].
        destruct (write_entry_readable _ _ _ _ Hw) as (r & w & Hfile & Hr).
        unfold readFileTool, readFileSync. rewrite Hfile.
        destruct r; [reflexivity|].
        destruct (Hr eq_refl) as (w0 & d0 & Hold).
        apply (mkdirp_frame _ _ _ (resolve p) false w0 d0 Hmk) in Hold.
        now elim (Hreadable w0 d0). }
  split; [exact Hread|]. rewrite Hread.
  split; [apply utf8Encode_toWellFormed|].
  intros Hwf. now apply toWellFormed_fixed.
Qed.

(** X3: once [delete_file] has reported the deletion of a file or of a
    directory, the path is gone: [read_file] and [edit_file] answer that the
    file is not found, and a second [delete_file] that the path is not
    found, changing nothing. *)
Theorem deleted_path_is_gone (p : jsstring) (fs : node) :
  fst (deleteFileTool p fs) = lit "Successfully deleted file: " ++ p
  \/ fst (deleteFileTool p fs) = lit "Successfully deleted directory: " ++ p ->
  let fs' := snd (deleteFileTool p fs) in
  readFileTool p fs' = lit "Error: File not found: " ++ p
  /\ (forall oldString newString,
        editFileTool p oldString newString fs'
        = (lit "Error: File not found: " ++ p, fs'))
  /\ deleteFileTool p fs' = (lit "Error: Path not found: " ++ p, fs').
Proof.
  intros Hok fs'.
  assert (Hgone : find (resolve p) fs' = inl ENOENT).
  { subst fs'. revert Hok. unfold deleteFileTool.
    assert (Herr : forall e,
               ~ (deleteCatch p e = lit "Successfully deleted file: " ++ p
                  \/ deleteCatch p e = lit "Successfully deleted directory: " ++ p)).
    { intros e [H|H]; revert H; unfold deleteCatch; destruct (isENOENT e);
        now apply (head_differs _ _ _ _ 69%N 83%N eq_refl eq_refl). }
    destruct (statSync p fs) as [st|e]; [|intros H; now elim (Herr e)].
    destruct (isFile st).
    - unfold unlinkSync.
      destruct (at_parent unlink_entry (resolve p) fs) as [e|fs1] eqn:Hu;
        [intros H; now elim (Herr _ H)|].
      intros _. apply (find_last_removed _ _ _ _ Hu).
      intros ? ? ? ?; apply unlink_entry_removes.
    - destruct (isDirectory st).
      + unfold rmdirSync.
        destruct (at_parent rmdir_entry (resolve p) fs) as [e|fs1] eqn:Hu;
          [intros H; now elim (Herr _ H)|].
        intros _. apply (find_last_removed _ _ _ _ Hu).
        intros ? ? ? ?; apply rmdir_entry_removes.
      + intros [H|H]; exfalso; revert H;
          now apply (head_differs _ _ _ _ 69%N 83%N eq_refl eq_refl). }
  repeat split.
  - unfold readFileTool, readFileSync. now rewrite Hgone.
  - intros oldString newString. unfold editFileTool, readFileSync.
    now rewrite Hgone.
  - unfold deleteFileTool, statSync. now rewrite Hgone.
Qed.

(** ** Dispatch *)

(** X4: a call to a tool that is not one of the six is answered, not
    refused: the model gets ["Unknown tool: <name>"] as the result of that
    call, under the call's identifier, the file system is as before, and the
    remaining calls of the turn are executed. *)
Theorem unknown_tool_is_answered (tc : ToolCall) (rest : list ToolCall)
        (args : json) (st : State) :
  ~ In (tc_name tc) toolNames ->
  JSON_parse (tc_arguments tc) = Normal args ->
  executeTool (tc_name tc) args (files st)
  = Normal (lit "Unknown tool: " ++ tc_name tc, files st)
  /\ runCalls (tc :: rest) st
     = runCalls rest
         (MkState
            (messages st ++ [ToolMsg (tc_id tc) (lit "Unknown tool: " ++ tc_name tc)])
            (files st)
            ((console st ++ [lit "[" ++ tc_name tc ++ lit "] " ++ inspect args])
               ++ [preview (lit "Unknown tool: " ++ tc_name tc)])
            (requests st)).
Proof.
  intros Hname Hparse.
  assert (Hexec : executeTool (tc_name tc) args (files st)
                  = Normal (lit "Unknown tool: " ++ tc_name tc, files st)).
  { unfold executeTool.
    repeat match goal with
           | |- context [str_eq_dec (tc_name tc) ?k] =>
               destruct (str_eq_dec (tc_name tc) k) as [Heq|_];
               [exfalso; apply Hname; rewrite Heq; unfold toolNames; simpl; tauto|]
           end.
    reflexivity. }
  split; [exact Hexec|].
  cbn [runCalls]. now rewrite Hparse, Hexec.
Qed.

(** ** The tree walker *)

Lemma node_nested_ind (P : node -> Prop) :
  (forall r w d, P (File r w d)) ->
  (forall r w es,
      (forall name child, In (name, child) es -> P child) -> P (Dir r w es)) ->
  P Other ->
  forall n, P n.
Proof.
  intros HF HD HO.
  refine (fix IH (n : node) : P n :=
            match n with
            | File r w d => HF r w d
            | Dir r w es =>
                HD r w es
                   ((fix each (es : list entry)
                     : forall name child, In (name, child) es -> P child :=
                       match es with
                       | [] => fun _ _ H => match H with end
                       | (k, c) :: es' =>
                           fun name child H =>
                             match H with
                             | or_introl Heq => _
                             | or_intror Hin => each es' name child Hin
                             end
                       end) es)
            | Other => HO
            end).
  injection Heq as _ <-. exact (IH c).
Qed.

Lemma walk_directory (current : jsstring) (w : bool) (es : list entry) :
  walk current (Dir true w es)
  = (fst (walkEntries current es), Readdir current :: snd (walkEntries current es)).
Proof. reflexivity. Qed.

Lemma walkEntries_cons (current name : jsstring) (child : node) (es : list entry) :
  walkEntries current ((name, child) :: es)
  = (fst (match child with
          | Dir _ _ _ => walk (path_join current name) child
          | File _ _ _ => ([(path_join current name, child)], [])
          | Other => ([], [])
          end) ++ fst (walkEntries current es),
     snd (match child with
          | Dir _ _ _ => walk (path_join current name) child
          | File _ _ _ => ([(path_join current name, child)], [])
          | Other => ([], [])
          end) ++ snd (walkEntries current es)).
Proof. reflexivity. Qed.

Lemma walkEntries_in (current : jsstring) (es : list entry)
      (full : jsstring) (f : node) :
  In (full, f) (fst (walkEntries current es))
  <-> exists name child,
        In (name, child) es
        /\ ((isFile child = true /\ child = f /\ full = path_join current name)
            \/ (isDirectory child = true
                /\ In (full, f) (fst (walk (path_join current name) child)))).
Proof.
  induction es as [|[k c] es IH].
  - split; [intros [] | intros (? & ? & [] & _)].
  - rewrite walkEntries_cons. cbn [fst]. rewrite in_app_iff, IH. split.
    + intros [H|(name & child & Hin & H)].
      * exists k, c. split; [now left|].
        destruct c as [r w d| r w es'|]; cbn [fst] in H.
        -- destruct H as [[= <- <-]|[]]. left. auto.
        -- right. auto.
        -- destruct H.
      * exists name, child. split; [now right | assumption].
    + intros (name & child & Hin & Hc). destruct Hin as [Heq|Hin].
      * injection Heq as -> ->.
        left. destruct Hc as [(Hfile & <- & ->)|(Hdir & Hw)].
        -- destruct child; try discriminate. now left.
        -- destruct child; try discriminate. exact Hw.
      * right. eauto.
Qed.

Lemma walk_reaches (n : node) :
  forall (current full : jsstring) (f : node),
    In (full, f) (fst (walk current n)) <-> reaches current n full f.
Proof.
  induction n as [r w d| r w es IH|] using node_nested_ind;
    intros current full f.
  - split; [intros [] | intros H; inversion H].
  - destruct r.
    + rewrite walk_directory. cbn [fst]. rewrite walkEntries_in. split.
      * intros (name & child & Hin & [(Hfile & <- & ->)|(Hdir & Hw)]).
        -- destruct child; try discriminate. now apply reach_file.
        -- eapply reach_dir; [exact Hin | exact Hdir |].
           now apply (IH name child Hin).
      * intros H. inversion H; subst.
        -- do 2 eexists. split; [eassumption|]. left. auto.
        -- do 2 eexists. split; [eassumption|]. right. split; [assumption|].
           now apply (IH name child).
    + split; [intros [] | intros H; inversion H].
  - split; [intros [] | intros H; inversion H].
Qed.

Lemma reaches_file (current : jsstring) (n : node) (full : jsstring) (f : node) :
  reaches current n full f -> isFile f = true.
Proof. induction 1; [reflexivity | assumption]. Qed.

(** X5: the walker collects exactly the regular files that lie below the
    root through directories that can be listed: nothing under a directory
    it cannot list, and nothing that is not a regular file. *)
Theorem walkFiles_collects_reachable_files (rootDir : jsstring) (fs : node) :
  (forall full f,
      In (full, f) (fst (walkFiles rootDir fs))
      <-> exists n, find (resolve rootDir) fs = inr n /\ reaches rootDir n full f)
  /\ Forall (fun x => isFile (snd x) = true) (fst (walkFiles rootDir fs)).
Proof.
  assert (H : forall full f,
             In (full, f) (fst (walkFiles rootDir fs))
             <-> exists n, find (resolve rootDir) fs = inr n
                           /\ reaches rootDir n full f).
  { intros full f. unfold walkFiles.
    destruct (find (resolve rootDir) fs) as [e|n].
    - split; [intros [] | intros (n & Hn & _); discriminate].
    - rewrite walk_reaches. split.
      + intros Hr. now exists n.
      + intros (n' & [= <-] & Hr). assumption. }
  split; [exact H|].
  apply Forall_forall. intros [full f] Hin.
  apply H in Hin as (n & _ & Hr). now apply (reaches_file _ _ _ _ Hr).
Qed.

(** ** More on [search] *)

(** X6: with a pattern that compiles, a search whose root is missing, is
    not a directory or cannot be listed is not an error: one attempt to list
    the root is made and the answer is ["No matches found"]. *)
Theorem search_of_unlistable_root (pattern p : jsstring)
        (filePattern : option jsstring) (fs : node) :
  regexp_error pattern = None ->
  (forall w es, find (resolve (orCurrent p)) fs <> inr (Dir true w es)) ->
  searchTool pattern p filePattern fs
  = (lit "No matches found", [Readdir (orCurrent p)]).
Proof.
  intros Hok Hroot. unfold searchTool. rewrite Hok.
  assert (Hw : walkFiles (orCurrent p) fs = ([], [Readdir (orCurrent p)])).
  { unfold walkFiles.
    destruct (find (resolve (orCurrent p)) fs) as [e|[r w d|[|] w es|]] eqn:Hf;
      try reflexivity.
    now elim (Hroot w es). }
  rewrite Hw. reflexivity.
Qed.

Lemma walk_only_lists (n : node) :
  forall current, forallb isReaddir (snd (walk current n)) = true.
Proof.
  induction n as [r w d| r w es IH|] using node_nested_ind; intros current;
    try reflexivity.
  destruct r; [|reflexivity]. rewrite walk_directory. cbn [snd forallb isReaddir andb].
  induction es as [|[k c] es IHes]; [reflexivity|].
  rewrite walkEntries_cons. cbn [snd]. rewrite forallb_app.
  rewrite IHes by (intros name child Hin; apply (IH name child); now right).
  rewrite andb_true_r.
  destruct c as [r' w' d'| r' w' es'|]; try reflexivity.
  apply (IH k (Dir r' w' es')). now left.
Qed.

Lemma scanFiles_reads (regex : RegExp) (fileFilter : option RegExp)
      (files : list (jsstring * node)) :
  forall results a,
    In a (snd (scanFiles regex fileFilter files results)) ->
    exists x f,
      a = ReadFile x /\ In (x, f) files /\ skipped fileFilter x = false.
Proof.
  induction files as [|[filePath n] files IH]; intros results a;
    cbn [scanFiles]; [intros []|].
  assert (Hrest : forall results',
             In a (snd (scanFiles regex fileFilter files results')) ->
             exists x f,
               a = ReadFile x /\ In (x, f) ((filePath, n) :: files)
               /\ skipped fileFilter x = false).
  { intros results' H. destruct (IH _ _ H) as (x & f & Ha & Hin & Hs).
    exists x, f. repeat split; [assumption | now right | assumption]. }
  destruct (skipped fileFilter filePath) eqn:Hskip; [apply Hrest|].
  assert (Hhere : exists x f,
             ReadFile filePath = ReadFile x /\ In (x, f) ((filePath, n) :: files)
             /\ skipped fileFilter x = false).
  { exists filePath, n. repeat split; [now left | assumption]. }
  destruct (read_node filePath (inr n)) as [content|e].
  - destruct (scanLines regex filePath (splitLines content) 0 results)
      as [results'|results']; cbn [snd].
    + intros [<-|H]; [exact Hhere | now apply (Hrest results')].
    + intros [<-|[]]. exact Hhere.
  - cbn [snd]. intros [<-|H]; [exact Hhere | now apply (Hrest results)].
Qed.

(** X7: the only files a search reads are files the walker collected whose
    base name the file filter accepts; everything else it does to the file
    system is listing directories. *)
Theorem search_reads_only_selected_files (pattern p : jsstring)
        (filePattern : option jsstring) (fs : node) :
  Forall (fun a =>
            match a with
            | Readdir _ => True
            | ReadFile x =>
                skipped (fileFilterOf filePattern) x = false
                /\ exists f, In (x, f) (fst (walkFiles (orCurrent p) fs))
            end)
         (snd (searchTool pattern p filePattern fs)).
Proof.
  apply Forall_forall. intros a Hin. unfold searchTool in Hin.
  destruct (regexp_error pattern); [destruct Hin|].
  assert (Hlog : In a (snd (walkFiles (orCurrent p) fs)
                        ++ snd (scanFiles (MkRegExp pattern (lit "i"))
                                          (fileFilterOf filePattern)
                                          (fst (walkFiles (orCurrent p) fs)) []))).
  { destruct (fst (scanFiles _ _ _ _)) as [results|results];
      [destruct (length results =? 0)%nat|]; exact Hin. }
  apply in_app_iff in Hlog as [Hwalk|Hscan].
  - assert (Hr : isReaddir a = true).
    { assert (Hall : forallb isReaddir (snd (walkFiles (orCurrent p) fs)) = true).
      { unfold walkFiles. destruct (find _ fs); [reflexivity | apply walk_only_lists]. }
      rewrite forallb_forall in Hall. now apply Hall. }
    now destruct a.
  - destruct (scanFiles_reads _ _ _ _ _ Hscan) as (x & f & -> & Hx & Hs). eauto.
Qed.

Lemma trimStart_snoc (a : jsstring) (x : cu) :
  isTrimmed x = false -> trimStart (a ++ [x]) = trimStart a ++ [x].
Proof.
  intros Hx. induction a as [|c a IH]; simpl.
  - now rewrite Hx.
  - destruct (isTrimmed c); [assumption | reflexivity].
Qed.

Lemma trimStart_fixed (s : jsstring) :
  match s with [] => True | c :: _ => isTrimmed c = false end ->
  trimStart s = s.
Proof. destruct s as [|c s]; simpl; [reflexivity | now intros ->]. Qed.

Lemma trimStart_head (s : jsstring) :
  match trimStart s with [] => True | c :: _ => isTrimmed c = false end.
Proof.
  induction s as [|c s IH]; simpl; [exact I|].
  destruct (isTrimmed c) eqn:Hc; [assumption | assumption].
Qed.

(** Trimming the end keeps a first code unit that [trimStart] would keep. *)
Lemma trimEnd_head (t : jsstring) :
  match t with [] => True | c :: _ => isTrimmed c = false end ->
  match trimEnd t with [] => True | c :: _ => isTrimmed c = false end.
Proof.
  unfold trimEnd. destruct t as [|x t]; [intros _; exact I|]. intros Hx.
  cbn [rev]. rewrite (trimStart_snoc _ _ Hx), rev_app_distr. exact Hx.
Qed.

Lemma trim_idempotent (s : jsstring) : trim (trim s) = trim s.
Proof.
  unfold trim.
  rewrite (trimStart_fixed (trimEnd (trimStart s)))
    by (apply trimEnd_head, trimStart_head).
  unfold trimEnd at 1. unfold trimEnd at 1. rewrite rev_involutive.
  rewrite (trimStart_fixed (trimStart (rev (trimStart s))))
    by apply trimStart_head.
  reflexivity.
Qed.

Lemma trim_truthy (s : jsstring) : truthy (trim s) = true -> truthy s = true.
Proof. destruct s; [discriminate | reflexivity]. Qed.

(** X8: [search] trims the file pattern before use, and a file pattern that
    is empty or blank is no filter at all. *)
Theorem file_pattern_is_trimmed (pattern p fp : jsstring) (fs : node) :
  searchTool pattern p (Some fp) fs
  = searchTool pattern p
               (if truthy (trim fp) then Some (trim fp) else None) fs.
Proof.
  assert (H : fileFilterOf (Some fp)
              = fileFilterOf (if truthy (trim fp) then Some (trim fp) else None)).
  { unfold fileFilterOf. destruct (truthy (trim fp)) eqn:Ht.
    - rewrite (trim_truthy _ Ht), trim_idempotent, Ht. reflexivity.
    - now rewrite andb_false_r. }
  unfold searchTool. now rewrite H.
Qed.

(** ** More on the turn loop *)

Lemma extends_refl (a : list Message) : extends a a.
Proof. exists []. now rewrite app_nil_r. Qed.

Lemma extends_trans (a b c : list Message) :
  extends a b -> extends b c -> extends a c.
Proof. intros [x ->] [y ->]. exists (x ++ y). now rewrite app_assoc. Qed.

Lemma runCalls_extends (tcs : list ToolCall) :
  forall st : State,
    extends (messages st) (messages (snd (runCalls tcs st)))
    /\ requests (snd (runCalls tcs st)) = requests st.
Proof.
  induction tcs as [|tc tcs IH]; intros st; cbn [runCalls].
  - split; [apply extends_refl | reflexivity].
  - destruct (JSON_parse (tc_arguments tc)) as [args|e].
    + destruct (executeTool (tc_name tc) args (files st)) as [[result fs']|].
      * destruct (IH (MkState (messages st ++ [ToolMsg (tc_id tc) result]) fs'
                              ((console st
                                  ++ [lit "[" ++ tc_name tc ++ lit "] " ++ inspect args])
                                 ++ [preview result])
                              (requests st))) as [Hm Hr].
        split; [|exact Hr].
        apply (extends_trans _ (messages st ++ [ToolMsg (tc_id tc) result]));
          [now eexists | exact Hm].
      * split; [apply extends_refl | reflexivity].
    + split; [apply extends_refl | reflexivity].
Qed.

(** What a loop adds to the requests: each new request continues the
    conversation the loop started from and is continued by the final
    conversation, and the new requests continue one another in order. *)
Lemma runLoop_requests_grow (fuel : nat) :
  forall st : State,
    exists new,
      requests (snd (runLoop fuel st)) = requests st ++ new
      /\ match fuel with O => True | S _ => exists more, new = messages st :: more end
      /\ ForallOrdPairs extends new
      /\ Forall (fun r => extends (messages st) r
                          /\ extends r (messages (snd (runLoop fuel st)))) new
      /\ extends (messages st) (messages (snd (runLoop fuel st))).
Proof.
  induction fuel as [|fuel IH]; intros st.
  - exists []. cbn [runLoop snd]. rewrite app_nil_r.
    repeat split; try constructor. apply extends_refl.
  - cbn [runLoop].
    assert (Hone : forall final : State,
               requests final = requests st ++ [messages st] ->
               extends (messages st) (messages final) ->
               exists new,
                 requests final = requests st ++ new
                 /\ (exists more, new = messages st :: more)
                 /\ ForallOrdPairs extends new
                 /\ Forall (fun r => extends (messages st) r
                                     /\ extends r (messages final)) new
                 /\ extends (messages st) (messages final)).
    { intros final Hreq Hext. exists [messages st].
      repeat split; try assumption.
      - now exists [].
      - repeat constructor.
      - constructor; [|constructor]. split; [apply extends_refl | assumption]. }
    destruct (create (messages st)) as [msg|e];
      [|apply Hone; [reflexivity | apply extends_refl]].
    destruct (tool_calls msg) as [tcs|];
      [|apply Hone; [reflexivity | apply extends_refl]].
    cbn [messages files console requests].
    set (st2 := MkState (messages st ++ [AssistantMsg msg]) (files st)
                        (console st) (requests st ++ [messages st])).
    destruct (runCalls_extends tcs st2) as [Hm Hr].
    assert (Hst3 : extends (messages st) (messages (snd (runCalls tcs st2)))).
    { apply (extends_trans _ (messages st2)); [now eexists | exact Hm]. }
    destruct (runCalls tcs st2) as [[e|] st3]; cbn [snd] in *.
    + apply Hone; [exact Hr | exact Hst3].
    + destruct (IH st3) as (new & Hreq & _ & Hord & Hall & Hext).
      exists (messages st :: new). rewrite Hreq, Hr. cbn [requests st2].
      rewrite <- app_assoc. split; [reflexivity|].
      split; [now exists new|]. rewrite Forall_forall in Hall.
      assert (Hfinal : extends (messages st) (messages (snd (runLoop fuel st3))))
        by (apply (extends_trans _ (messages st3)); assumption).
      repeat split.
      * constructor; [|assumption]. apply Forall_forall. intros r Hin.
        apply (extends_trans _ (messages st3)); [assumption | now apply Hall].
      * constructor.
        -- split; [apply extends_refl | assumption].
        -- apply Forall_forall. intros r Hin. destruct (Hall r Hin) as [H1 H2].
           split; [|assumption].
           apply (extends_trans _ (messages st3)); assumption.
      * assumption.
Qed.

(** X9: the conversation of a run only grows.  Every message sequence sent
    to the model starts with the user's prompt, each later one continues
    every earlier one, and all of them are continued by the conversation the
    run ends with: no message is ever dropped, changed or reordered. *)
Theorem conversation_is_append_only (fuel : nat) (promptText : jsstring)
        (fs : node) :
  let final := snd (run fuel promptText fs) in
  ForallOrdPairs extends (requests final)
  /\ Forall (fun r => extends [UserMsg promptText] r
                      /\ extends r (messages final)) (requests final).
Proof.
  cbv zeta. unfold run.
  destruct (runLoop_requests_grow fuel (MkState [UserMsg promptText] fs [] []))
    as (new & Hreq & _ & Hord & Hall & _).
  rewrite Hreq. cbn [requests app]. split; assumption.
Qed.





Lemma getProp_null (key : jsstring) (v : value) :
  getProp JNull key <> Normal v.
Proof. discriminate. Qed.







(** X11: in a session, blank lines start nothing, and every run starts from
    a conversation that holds the line as typed and nothing else: the first
    message sequence each run sends to the model is that single user
    message, whatever the runs before it said. *)
Theorem session_runs_start_fresh (fuel : nat) (lines : list jsstring) :
  forall fs : node,
    exists rest,
      List.map (fun l => Some [UserMsg l])
               (filter (fun l => truthy (trim l)) lines)
      = List.map (fun r => hd_error (requests (snd r)))
                 (session (S fuel) lines fs) ++ rest.
Proof.
  induction lines as [|input lines IH]; intros fs; cbn [session filter].
  - now exists [].
  - unfold onLine. destruct (truthy (trim input)).
    + assert (Hfirst : hd_error (requests (snd (run (S fuel) input fs)))
                       = Some [UserMsg input]).
      { unfold run.
        destruct (runLoop_requests_grow (S fuel) (MkState [UserMsg input] fs [] []))
          as (new & Hreq & (more & ->) & _).
        now rewrite Hreq. }
      destruct (run (S fuel) input fs) as [[| e |] st]; cbn [List.map snd] in *;
        rewrite Hfirst; try (eexists; reflexivity).
      destruct (IH (files st)) as [rest ->]. now exists rest.
    + apply IH.
Qed.

(** ** Lines *)

Lemma splitLines_nonempty (s : jsstring) : splitLines s <> [].
Proof.
  induction s as [|c s IH]; cbn [splitLines]; [discriminate|].
  destruct (cu_eqb c LF); [discriminate|].
  destruct s as [|d s']; [discriminate|].
  destruct (cu_eqb c CR && cu_eqb d LF); [discriminate|].
  destruct (splitLines (d :: s')); [congruence | discriminate].
Qed.

Lemma join_cons (p : jsstring) (rest : list jsstring) (sep : jsstring) :
  rest <> [] -> join (p :: rest) sep = p ++ sep ++ join rest sep.
Proof. destruct rest; [congruence | reflexivity]. Qed.

Lemma join_cons_head (c : cu) (ls : list jsstring) (sep : jsstring) :
  ls <> [] -> join (cons_head c ls) sep = c :: join ls sep.
Proof.
  destruct ls as [|l [|l' ls']]; [congruence | reflexivity | reflexivity].
Qed.

(** X12: the lines [search] numbers are the line-feed separated pieces of
    the content: there is one more line than there are line feeds, and for
    a content without carriage returns the lines joined by line feeds give
    back the content. *)
Theorem lines_of_content (content : jsstring) :
  existsb (cu_eqb CR) content = false ->
  length (splitLines content) = S (count_occ N.eq_dec content LF)
  /\ join (splitLines content) NL = content.
Proof.
  induction content as [|c s IH]; intros Hcr; [split; reflexivity|].
  cbn [existsb] in Hcr. apply orb_false_iff in Hcr as [Hc Hs].
  destruct (IH Hs) as [IHlen IHjoin].
  assert (Hc' : cu_eqb c CR = false).
  { unfold cu_eqb in *. now rewrite N.eqb_sym. }
  cbn [splitLines count_occ].
  destruct (N.eq_dec c LF) as [->|Hne].
  - change (cu_eqb LF LF) with true. cbv iota. cbn [length].
    split; [now rewrite IHlen|].
    rewrite join_cons by apply splitLines_nonempty. now rewrite IHjoin.
  - assert (Hlf : cu_eqb c LF = false) by now apply N.eqb_neq.
    rewrite Hlf.
    destruct s as [|d s']; [split; reflexivity|].
    rewrite Hc'. cbn [andb]. split.
    + rewrite <- IHlen. destruct (splitLines (d :: s')) eqn:E;
        [now elim (splitLines_nonempty (d :: s')) | reflexivity].
    + rewrite join_cons_head by apply splitLines_nonempty. now rewrite IHjoin.
Qed.

(** ** More on the glob translation *)

Lemma fragmentTest_globToRegExp (canon : cu -> cu) (glob name : jsstring) :
  fragmentTest canon (globToRegExp glob) name
  = Some (matchAtoms canon (List.map atomOfGlob glob) name).
Proof.
  unfold fragmentTest.
  destruct (str_eq_dec (flags (globToRegExp glob)) (lit "i")) as [_|Hne];
    [|now elim Hne].
  now rewrite parse_globToRegExp.
Qed.

Lemma atoms_of_plain_text (text : jsstring) :
  existsb isWildcard text = false ->
  List.map atomOfGlob text = List.map Lit text.
Proof.
  induction text as [|c text IH]; intros H; [reflexivity|].
  cbn [existsb] in H. apply orb_false_iff in H as [Hc Ht].
  unfold isWildcard in Hc. apply orb_false_iff in Hc as [Hs Hq].
  cbn [List.map]. unfold atomOfGlob at 1. now rewrite Hs, Hq, (IH Ht).
Qed.

Lemma matchAtoms_literals (canon : cu -> cu) (text : jsstring) :
  forall name,
    matchAtoms canon (List.map Lit text) name = true
    <-> List.map canon name = List.map canon text.
Proof.
  induction text as [|c text IH]; intros [|x name]; cbn [List.map matchAtoms];
    try (split; [discriminate | discriminate]); [split; reflexivity|].
  rewrite andb_true_iff, cu_eqb_eq, IH. split.
  - intros [-> ->]. reflexivity.
  - intros [= -> ->]. auto.
Qed.

(** X13: a file filter without wildcards selects exactly the names equal to
    it up to case, and a filter made of [*] and such a text (["*.py"])
    selects exactly the names that end with the text, up to case, after a
    beginning that holds no line terminator. *)
Theorem glob_plain_text_and_suffix (canon : cu -> cu) (text : jsstring) :
  existsb isWildcard text = false ->
  forall name,
    (fragmentTest canon (globToRegExp text) name = Some true
     <-> List.map canon name = List.map canon text)
    /\ (fragmentTest canon (globToRegExp (STAR :: text)) name = Some true
        <-> exists pre post,
              name = pre ++ post
              /\ forallb notLineTerminator pre = true
              /\ List.map canon post = List.map canon text).
Proof.
  intros Hplain name. rewrite !fragmentTest_globToRegExp. split.
  - rewrite (atoms_of_plain_text _ Hplain), <- matchAtoms_literals.
    split; [now intros [= ->] | now intros ->].
  - cbn [List.map]. change (atomOfGlob STAR) with AnyRun.
    rewrite (atoms_of_plain_text _ Hplain). split.
    + intros [= H]. apply anyrun_iff in H as (pre & post & -> & Hpre & Hpost).
      exists pre, post. repeat split; try assumption.
      now apply matchAtoms_literals.
    + intros (pre & post & -> & Hpre & Hpost). f_equal.
      apply anyrun_iff. exists pre, post. repeat split; try assumption.
      now apply matchAtoms_literals.
Qed.

(** ** The two agents *)

(** Whenever the dispatch of [agent.ts] answers a [read_file] or a
    [list_directory] call without throwing, [executeTool] gives the same
    answer and leaves the files as they are; for [list_directory] this
    needs a path that, when a string, is not blank. *)
Lemma dispatch_agrees (name : jsstring) (args : json) (fs : node)
      (s : jsstring) :
  name = lit "read_file" \/ name = lit "list_directory" ->
  (name = lit "list_directory" ->
   forall p, getProp args (lit "path") = Normal (Some (JStr p)) ->
             truthy (trim p) = true) ->
  dispatch_ts name args fs = Normal s ->
  executeTool name args fs = Normal (s, fs).
Proof.
  intros [-> | ->] Hblank; unfold dispatch_ts, executeTool.
  - destruct (str_eq_dec (lit "read_file") (lit "read_file")) as [_|Hne];
      [|now elim Hne].
    destruct (getProp args (lit "path")) as [p|e]; cbn [bind]; [|discriminate].
    unfold readFileTool_any.
    destruct (readFileSync_any p fs); [now intros [= ->] | discriminate].
  - destruct (str_eq_dec (lit "list_directory") (lit "read_file")) as [Heq|_];
      [discriminate Heq|].
    destruct (str_eq_dec (lit "list_directory") (lit "list_directory")) as [_|Hne];
      [|now elim Hne].
    destruct (getProp args (lit "path")) as [p|e] eqn:Hp; cbn [bind];
      [|discriminate].
    destruct (orDot p) as [[| | |dir| |]|] eqn:Ho; try discriminate.
    cbn [listDirectoryTool_any bind].
    assert (Hdir : orCurrent dir = dir).
    { destruct p as [[| | |q| |]|]; try discriminate Ho;
        injection Ho as <-; try reflexivity.
      unfold orCurrent. specialize (Hblank eq_refl q eq_refl).
      now rewrite Hblank, (trim_truthy _ Hblank). }
    unfold AgentTs.listDirectory, listDirectoryTool. rewrite Hdir.
    destruct (readdirSync _ fs); [now intros [= ->] | discriminate].
Qed.

(** At a payload that holds a string path, [dispatch_ts] is the dispatch
    on strings. *)
Lemma dispatch_ts_on_strings (name p : jsstring) (fs : node) :
  AgentTs.dispatch resolve name (Some p) fs
  = Some (dispatch_ts name (JObj [(lit "path", JStr p)]) fs).
Proof.
  unfold AgentTs.dispatch, dispatch_ts.
  destruct (str_eq_dec name (lit "read_file")); [reflexivity|].
  destruct (str_eq_dec name (lit "list_directory")); reflexivity.
Qed.

(** At payloads that hold strings, [executeTool] calls the handlers as
    they are declared. *)
Lemma executeTool_on_strings (p content oldString newString pattern
                              filePattern : jsstring) (fs : node) :
  executeTool (lit "read_file") (JObj [(lit "path", JStr p)]) fs
  = Normal (readFileTool p fs, fs)
  /\ executeTool (lit "list_directory") (JObj [(lit "path", JStr p)]) fs
     = Normal (listDirectoryTool p fs, fs)
  /\ executeTool (lit "list_directory") (JObj []) fs
     = Normal (listDirectoryTool (lit ".") fs, fs)
  /\ executeTool (lit "search")
                 (JObj [(lit "pattern", JStr pattern); (lit "path", JStr p);
                        (lit "file_pattern", JStr filePattern)]) fs
     = Normal (fst (searchTool pattern p (Some filePattern) fs), fs)
  /\ executeTool (lit "search") (JObj [(lit "pattern", JStr pattern)]) fs
     = Normal (fst (searchTool pattern (lit ".") None fs), fs)
  /\ executeTool (lit "write_file")
                 (JObj [(lit "path", JStr p); (lit "content", JStr content)]) fs
     = Normal (writeFileTool p content fs)
  /\ executeTool (lit "edit_file")
                 (JObj [(lit "path", JStr p); (lit "old_string", JStr oldString);
                        (lit "new_string", JStr newString)]) fs
     = Normal (editFileTool p oldString newString fs)
  /\ executeTool (lit "delete_file") (JObj [(lit "path", JStr p)]) fs
     = Normal (deleteFileTool p fs).
Proof.
  repeat split; try reflexivity.
  - change (executeTool (lit "search")
              (JObj [(lit "pattern", JStr pattern); (lit "path", JStr p);
                     (lit "file_pattern", JStr filePattern)]) fs)
      with (bind (searchTool_any (Some (JStr pattern)) (Some (JStr p))
                                 (Some (JStr filePattern)) fs)
                 (fun result => Normal (fst result, fs))).
    unfold searchTool_any, searchTool. cbn [truthyNonString patternText ToString].
    destruct (regexp_error pattern); reflexivity.
  - change (executeTool (lit "search") (JObj [(lit "pattern", JStr pattern)]) fs)
      with (bind (searchTool_any (Some (JStr pattern)) (Some (JStr (lit ".")))
                                 None fs)
                 (fun result => Normal (fst result, fs))).
    unfold searchTool_any, searchTool. cbn [truthyNonString patternText ToString].
    destruct (regexp_error pattern); reflexivity.
Qed.

(** ** Answers are never empty *)

Lemma resultLine_nonempty (filePath : jsstring) (i : nat) (line : jsstring) :
  resultLine filePath i line <> [].
Proof. unfold resultLine. destruct filePath; discriminate. Qed.

Lemma lineMatches_nonempty (regex : RegExp) (filePath : jsstring)
      (lines : list jsstring) :
  forall i, Forall (fun r => r <> []) (lineMatches regex filePath lines i).
Proof.
  induction lines as [|line lines IH]; intros i; cbn [lineMatches];
    [constructor|].
  apply Forall_app. split; [|apply IH].
  destruct (regexp_test regex line); repeat constructor.
  apply resultLine_nonempty.
Qed.

Lemma allMatches_nonempty (regex : RegExp) (fileFilter : option RegExp)
      (files : list (jsstring * node)) :
  Forall (fun r => r <> []) (allMatches regex fileFilter files).
Proof.
  unfold allMatches. induction files as [|f files IH]; cbn [flat_map];
    [constructor|].
  apply Forall_app. split; [|exact IH]. unfold fileMatches.
  destruct (skipped fileFilter (fst f)); [constructor|].
  destruct (read_node (fst f) (inr (snd f))); [|constructor].
  apply lineMatches_nonempty.
Qed.

Lemma join_nonempty (r : jsstring) (rest : list jsstring) (sep : jsstring) :
  r <> [] -> join (r :: rest) sep <> [].
Proof.
  intros Hr. destruct rest; [exact Hr|].
  cbn [join]. destruct r; [congruence | discriminate].
Qed.

(** X15: [search] never answers with the empty string: the answer is the
    error text, the sentinel, or result lines of which the first is not
    empty. *)
Theorem search_answer_is_never_empty (pattern p : jsstring)
        (filePattern : option jsstring) (fs : node) :
  fst (searchTool pattern p filePattern fs) <> [].
Proof.
  unfold searchTool. destruct (regexp_error pattern) as [msg|]; [discriminate|].
  rewrite scanFiles_bounded by (cbn [length]; lia). cbn [app].
  pose proof (allMatches_nonempty (MkRegExp pattern (lit "i"))
                (fileFilterOf filePattern)
                (fst (walkFiles (orCurrent p) fs))) as Hall.
  destruct (allMatches _ _ _) as [|r rest] eqn:E.
  - discriminate.
  - inversion Hall as [|? ? Hr _]; subst. unfold bounded.
    destruct (length (r :: rest) <? 50)%nat; cbn [fst length Nat.eqb].
    + now apply join_nonempty.
    + cbn [firstn app]. now apply join_nonempty.
Qed.

(** ** Enough fuel *)

Lemma runLoop_more_fuel (fuel : nat) :
  forall (st : State) (k : nat),
    fst (runLoop fuel st) <> OutOfFuel ->
    runLoop (fuel + k) st = runLoop fuel st.
Proof.
  induction fuel as [|fuel IH]; intros st k H; [now elim H|].
  cbn [Nat.add runLoop] in *.
  destruct (create (messages st)) as [msg|e]; [|reflexivity].
  destruct (tool_calls msg) as [tcs|]; [|reflexivity].
  destruct (runCalls tcs _) as [[e|] st3]; [reflexivity|].
  now apply IH.
Qed.

(** ** The turn loop of [agent.ts] *)

Lemma runCalls_ts_kept (tcs : list ToolCall) :
  Forall sharedCall tcs ->
  forall st st' : State,
    runCalls_ts tcs st = (None, st') -> runCalls tcs st = (None, st').
Proof.
  induction 1 as [|tc tcs [Hname Hblank] _ IH]; intros st st';
    cbn [runCalls_ts runCalls]; [trivial|].
  destruct (JSON_parse (tc_arguments tc)) as [args|e] eqn:Hp; [|discriminate].
  destruct (dispatch_ts (tc_name tc) args (files st)) as [result|e] eqn:Hd;
    try discriminate.
  rewrite (dispatch_agrees _ _ _ _ Hname
             (fun Hn p Hpath => Hblank Hn args p eq_refl Hpath) Hd).
  apply IH.
Qed.

Lemma runCalls_ts_ending (tcs : list ToolCall) :
  forall st : State, fst (runCalls_ts tcs st) <> Some Finished.
Proof.
  induction tcs as [|tc tcs IH]; intros st; cbn [runCalls_ts]; [discriminate|].
  destruct (JSON_parse (tc_arguments tc)) as [args|e]; [|discriminate].
  destruct (dispatch_ts (tc_name tc) args (files st)) as [result|e];
    try discriminate.
  apply IH.
Qed.

(** X14: the full agent keeps the runs of [agent.ts].  If the model only
    asks for [read_file], or for [list_directory] with a path that is not
    blank, then every run that [agent.ts] brings to its end is a run of the
    full agent, with the same conversation, the same output and the same
    files. *)
Theorem agent_ts_runs_are_kept (fuel : nat) (promptText : jsstring)
        (fs : node) (final : State) :
  (forall ms msg tc,
      create ms = Normal msg -> In tc (callsOf msg) -> sharedCall tc) ->
  run_ts fuel promptText fs = (Finished, final) ->
  run fuel promptText fs = (Finished, final).
Proof.
  intros Hcalls. unfold run_ts, run.
  generalize (MkState [UserMsg promptText] fs [] []).
  induction fuel as [|fuel IH]; intros st; cbn [runLoop_ts runLoop];
    [discriminate|].
  destruct (create (messages st)) as [msg|e] eqn:Hc; [|discriminate].
  destruct (tool_calls msg) as [tcs|] eqn:Htc; [|trivial].
  assert (Hshared : Forall sharedCall tcs).
  { apply Forall_forall. intros tc Hin. apply (Hcalls _ _ tc Hc).
    unfold callsOf. now rewrite Htc. }
  pose proof (runCalls_ts_ending tcs
                (MkState (messages st ++ [AssistantMsg msg]) (files st)
                         (console st) (requests st ++ [messages st]))) as Hend.
  cbn [messages files console requests] in *.
  destruct (runCalls_ts tcs _) as [[e|] st3] eqn:Hts.
  - intros [= -> _]. now elim Hend.
  - rewrite (runCalls_ts_kept tcs Hshared _ _ Hts). apply IH.
Qed.

End Host.

(* ================================================================== *)
(** * The properties on the concrete host *)
(* ================================================================== *)

Notation demoSearch :=
  (searchTool Demo.resolve Demo.path_join Demo.path_basename
              Demo.regexp_error Demo.regexp_test).

Notation demoRun :=
  (run Demo.resolve Demo.path_join Demo.path_basename Demo.path_dirname
       Demo.regexp_error Demo.regexp_test Demo.readFileSync_bad
       Demo.writeFileSync_bad Demo.invalidArgMessage).

(** A path of a space, a tab and a line feed is read as the current
    directory. *)
Lemma blank_path_witness :
  forallb isTrimmed [32%N; 9%N; 10%N] = true
  /\ (listDirectoryTool Demo.resolve [32%N; 9%N; 10%N] Demo.tree
      = listDirectoryTool Demo.resolve (lit ".") Demo.tree
      /\ forall pattern filePattern,
           demoSearch pattern [32%N; 9%N; 10%N] filePattern Demo.tree
           = demoSearch pattern (lit ".") filePattern Demo.tree).
Proof.
  split; [reflexivity|].
  apply blank_path_means_current_directory. reflexivity.
Defined.

(** The pattern ["("] does not compile: the error is returned and nothing
    is read. *)
Lemma search_invalid_pattern_witness :
  Demo.regexp_error (lit "(")
  = Some (lit "Invalid regular expression: /(/i: Unterminated group")
  /\ demoSearch (lit "(") (lit "dir") None Demo.tree
     = (lit "Invalid regex pattern: Invalid regular expression: /(/i: Unterminated group",
        []).
Proof.
  split; [reflexivity|].
  apply search_invalid_pattern_touches_nothing. reflexivity.
Defined.

Example search_valid_pattern_reads :
  snd (demoSearch (lit "foo") (lit "dir") None Demo.tree)
  = [Readdir (lit "dir"); ReadFile (lit "dir/notes.txt")].
Proof. reflexivity. Qed.

(** Searching [dir] for ["foo"] gives the two matching lines of
    [notes.txt]. *)
Lemma search_result_lines_witness :
  Demo.regexp_error (lit "foo") = None
  /\ fst (demoSearch (lit "foo") (lit "dir") None Demo.tree)
     = lit "dir/notes.txt:1: foo" ++ NL ++ lit "dir/notes.txt:3: foo".
Proof.
  split; [reflexivity|].
  rewrite (search_result_lines Demo.resolve Demo.path_join Demo.path_basename
             Demo.regexp_error Demo.regexp_test
             (lit "foo") (lit "dir") None Demo.tree eq_refl).
  reflexivity.
Defined.

(** C2, as first stated, fails here: with exactly fifty matching lines the
    fifty result lines are followed by
    the truncation marker: the result is not the fifty result lines alone. *)
Lemma search_fifty_matches_truncated :
  let all := searchMatches Demo.resolve Demo.path_join Demo.path_basename
                           Demo.regexp_test (lit "a") (lit ".") None
                           Demo.fiftyLines in
  Demo.regexp_error (lit "a") = None
  /\ length all = 50%nat
  /\ fst (demoSearch (lit "a") (lit ".") None Demo.fiftyLines)
     = join (all ++ [TRUNCATED]) NL
  /\ fst (demoSearch (lit "a") (lit ".") None Demo.fiftyLines) <> join all NL.
Proof.
  cbv zeta. split; [reflexivity|]. split; [vm_compute; reflexivity|].
  split; [vm_compute; reflexivity|].
  intros H. vm_compute in H. discriminate H.
Qed.

(** C5: a response whose list of tool calls is empty carries zero tool
    calls and the content ["hi"], yet the run does not end and the content
    is never printed: the response is appended, the model is invoked again
    with it, and again, and the console stays empty. *)
Lemma empty_tool_call_list_continues :
  let m := MkAssistant (Some (lit "hi")) (Some []) in
  let r := demoRun Demo.emptyCalls Demo.JSON_parse Demo.inspect 3 (lit "hello")
                   Demo.tree in
  Demo.emptyCalls [UserMsg (lit "hello")] = Normal m
  /\ length (callsOf m) = 0%nat
  /\ fst r = OutOfFuel
  /\ requests (snd r)
     = [[UserMsg (lit "hello")];
        [UserMsg (lit "hello"); AssistantMsg m];
        [UserMsg (lit "hello"); AssistantMsg m; AssistantMsg m]]
  /\ console (snd r) = []
  /\ fst (demoRun (fun _ => Normal (MkAssistant (Some (lit "hi")) None))
                  Demo.JSON_parse Demo.inspect 3 (lit "hello") Demo.tree)
     = Finished
  /\ console (snd (demoRun (fun _ => Normal (MkAssistant (Some (lit "hi")) None))
                           Demo.JSON_parse Demo.inspect 3 (lit "hello")
                           Demo.tree))
     = [lit "hi"].
Proof. cbv zeta. repeat split; reflexivity. Qed.

(** On the concrete engine, the filter ["*.TXT"] keeps [dir/notes.txt]. *)
Lemma glob_filter_witness :
  (forall re s b,
      fragmentTest canonicalizeAscii re s = Some b -> Demo.regexp_test re s = b)
  /\ skipped Demo.path_basename Demo.regexp_test
             (Some (globToRegExp (lit "*.TXT"))) (lit "dir/notes.txt") = false.
Proof.
  assert (H : forall re s b,
             fragmentTest canonicalizeAscii re s = Some b ->
             Demo.regexp_test re s = b).
  { intros re s b Hb. unfold Demo.regexp_test. now rewrite Hb. }
  split; [exact H|].
  destruct (glob_filter_matches_base_name Demo.path_basename Demo.regexp_test
              canonicalizeAscii (lit "*.TXT") H) as (_ & _ & Hskip & _).
  apply Hskip. vm_compute.
  apply (@gm_star canonicalizeAscii notLineTerminator _ (lit "notes") (lit ".txt"));
    [reflexivity|].
  repeat (apply gm_literal; [discriminate | discriminate | reflexivity |]).
  apply gm_nil.
Defined.

(** C6, as first stated, fails here: the glob ["*"] stands for any run of
    characters, a line feed among
    them, but the pattern built for it does not match a line feed. *)
Lemma glob_star_misses_line_feed :
  globMatches canonicalizeAscii anyCodeUnit (lit "*") [LF]
  /\ fragmentTest canonicalizeAscii (globToRegExp (lit "*")) [LF] = Some false.
Proof.
  split; [|reflexivity].
  apply (@gm_star canonicalizeAscii anyCodeUnit [] [LF] []); [reflexivity|].
  apply gm_nil.
Qed.

(** C1: [a.txt] holds ["xay"], with one occurrence of ["a"].  Asked to put
    ["[$&]"] in its place, [edit_file] reports success and the file holds
    ["x[a]y"]: the replacement was read as a template, not as the text to
    insert. *)
Lemma edit_file_dollar_template :
  let r := editFileTool Demo.resolve (lit "a.txt") (lit "a") (lit "[$&]")
                        Demo.tree in
  readFileSync Demo.resolve (lit "a.txt") Demo.tree = Normal (lit "xay")
  /\ occurrences (lit "a") (lit "xay") = 1%nat
  /\ fst r = lit "Successfully edited a.txt"
  /\ readFileSync Demo.resolve (lit "a.txt") (snd r) = Normal (lit "x[a]y")
  /\ lit "x[a]y" <> lit "x" ++ lit "[$&]" ++ lit "y".
Proof.
  cbv zeta. repeat split; try reflexivity. discriminate.
Qed.

(** C3: the empty string occurs three times in ["ab"] and four times in
    ["xay"].  With an empty [old_string], [edit_file] edits [b.txt] all the
    same, and for [a.txt] the error names two occurrences. *)
Lemma edit_file_empty_old_string :
  let r := editFileTool Demo.resolve (lit "b.txt") [] (lit "Z") Demo.tree in
  readFileSync Demo.resolve (lit "b.txt") Demo.tree = Normal (lit "ab")
  /\ occurrences [] (lit "ab") = 3%nat
  /\ fst r = lit "Successfully edited b.txt"
  /\ readFileSync Demo.resolve (lit "b.txt") (snd r) = Normal (lit "Zab")
  /\ occurrences [] (lit "xay") = 4%nat
  /\ editFileTool Demo.resolve (lit "a.txt") [] (lit "Z") Demo.tree
     = (lit "Error: old_string appears 2 times in a.txt. Must be unique.",
        Demo.tree).
Proof. cbv zeta. repeat split; reflexivity. Qed.

(** C4: in [agent.ts], reading a file that does not exist throws out of
    [readFile] and out of the dispatch; the later [readFileTool] returns
    the error as text. *)
Lemma agent_ts_readFile_throws :
  AgentTs.readFile Demo.resolve (lit "missing.txt") Demo.tree
  = Throw (sysError ENOENT "open" (lit "missing.txt"))
  /\ AgentTs.dispatch Demo.resolve (lit "read_file") (Some (lit "missing.txt"))
                      Demo.tree
     = Some (Throw (sysError ENOENT "open" (lit "missing.txt")))
  /\ AgentTs.listDirectory Demo.resolve (lit "nowhere") Demo.tree
     = Throw (sysError ENOENT "scandir" (lit "nowhere"))
  /\ readFileTool Demo.resolve (lit "missing.txt") Demo.tree
     = lit "Error: File not found: missing.txt".
Proof. repeat split; reflexivity. Qed.

(** ** The handlers at work *)

Example delete_file_examples :
  fst (deleteFileTool Demo.resolve (lit "a.txt") Demo.tree)
  = lit "Successfully deleted file: a.txt"
  /\ fst (deleteFileTool Demo.resolve (lit "empty") Demo.tree)
     = lit "Successfully deleted directory: empty"
  /\ deleteFileTool Demo.resolve (lit "dir") Demo.tree
     = (lit "Error deleting: ENOTEMPTY: directory not empty, rmdir 'dir'",
        Demo.tree)
  /\ deleteFileTool Demo.resolve (lit "nowhere") Demo.tree
     = (lit "Error: Path not found: nowhere", Demo.tree).
Proof. repeat split; reflexivity. Qed.

Example write_file_example :
  let r := writeFileTool Demo.resolve Demo.path_dirname (lit "x/y/z.txt")
                         [233%N; 33%N] Demo.tree in
  fst r = lit "Successfully wrote 3 bytes to x/y/z.txt"
  /\ length [233%N; 33%N] = 2%nat
  /\ isDirectoryAt [lit "x"; lit "y"] (snd r) = true
  /\ readFileSync Demo.resolve (lit "x/y/z.txt") (snd r) = Normal [233%N; 33%N]
  /\ isDirectoryAt [lit "x"] Demo.tree = false.
Proof. cbv zeta. repeat split; reflexivity. Qed.

Example edit_file_example :
  let r := editFileTool Demo.resolve (lit "a.txt") (lit "a") (lit "bcd")
                        Demo.tree in
  fst r = lit "Successfully edited a.txt"
  /\ readFileSync Demo.resolve (lit "a.txt") (snd r) = Normal (lit "xbcdy").
Proof. cbv zeta. split; reflexivity. Qed.

Example split_overlap :
  split (lit "aaa") (lit "aa") = [lit ""; lit "a"]
  /\ occurrences (lit "aa") (lit "aaa") = 1%nat.
Proof. split; reflexivity. Qed.

Example splitLines_crlf :
  splitLines (lit "foo" ++ [CR; LF] ++ lit "bar" ++ [LF])
  = [lit "foo"; lit "bar"; lit ""].
Proof. reflexivity. Qed.

Example unknown_tool :
  executeTool Demo.resolve Demo.path_join Demo.path_basename Demo.path_dirname
              Demo.regexp_error Demo.regexp_test Demo.readFileSync_bad
              Demo.writeFileSync_bad Demo.invalidArgMessage
              (lit "fly") Demo.noArgs Demo.tree
  = Normal (lit "Unknown tool: fly", Demo.tree).
Proof. reflexivity. Qed.

(** ** Further properties on the concrete host *)

Notation demoExecute :=
  (executeTool Demo.resolve Demo.path_join Demo.path_basename Demo.path_dirname
               Demo.regexp_error Demo.regexp_test Demo.readFileSync_bad
               Demo.writeFileSync_bad Demo.invalidArgMessage).

Notation demoRunCalls :=
  (runCalls Demo.resolve Demo.path_join Demo.path_basename Demo.path_dirname
            Demo.regexp_error Demo.regexp_test Demo.readFileSync_bad
            Demo.writeFileSync_bad Demo.invalidArgMessage Demo.JSON_parse
            Demo.inspect).

Notation demoRunLoop :=
  (runLoop Demo.resolve Demo.path_join Demo.path_basename Demo.path_dirname
           Demo.regexp_error Demo.regexp_test Demo.readFileSync_bad
           Demo.writeFileSync_bad Demo.invalidArgMessage).


(** A lone surrogate written below two missing directories reads back as
    U+FFFD, the letter after it as written. *)
Lemma write_then_read_witness :
  let p := lit "x/y/z.txt" in
  let content := [55296%N; 33%N] in
  let fs' := snd (writeFileTool Demo.resolve Demo.path_dirname p content
                                Demo.tree) in
  fst (writeFileTool Demo.resolve Demo.path_dirname p content Demo.tree)
  = lit "Successfully wrote " ++ decimal (byteLength content)
      ++ lit " bytes to " ++ p
  /\ (forall w d, find (Demo.resolve p) Demo.tree <> inr (File false w d))
  /\ find (Demo.resolve p) Demo.tree <> inr Other
  /\ toWellFormed content = [65533%N; 33%N]
  /\ (readFileTool Demo.resolve p fs' = toWellFormed content
      /\ utf8Encode (readFileTool Demo.resolve p fs') = utf8Encode content
      /\ (isWellFormed content = true ->
          readFileTool Demo.resolve p fs' = content)).
Proof.
  cbv zeta.
  split; [reflexivity|]. split; [discriminate|]. split; [discriminate|].
  split; [reflexivity|].
  apply write_then_read; [reflexivity | discriminate | discriminate].
Defined.

(** After [a.txt] is deleted, it is not found any more. *)
Lemma deleted_path_is_gone_witness :
  (fst (deleteFileTool Demo.resolve (lit "a.txt") Demo.tree)
   = lit "Successfully deleted file: " ++ lit "a.txt"
   \/ fst (deleteFileTool Demo.resolve (lit "a.txt") Demo.tree)
      = lit "Successfully deleted directory: " ++ lit "a.txt")
  /\ (let fs' := snd (deleteFileTool Demo.resolve (lit "a.txt") Demo.tree) in
      readFileTool Demo.resolve (lit "a.txt") fs'
      = lit "Error: File not found: " ++ lit "a.txt"
      /\ (forall oldString newString,
            editFileTool Demo.resolve (lit "a.txt") oldString newString fs'
            = (lit "Error: File not found: " ++ lit "a.txt", fs'))
      /\ deleteFileTool Demo.resolve (lit "a.txt") fs'
         = (lit "Error: Path not found: " ++ lit "a.txt", fs')).
Proof.
  split; [left; reflexivity|].
  apply deleted_path_is_gone. left. reflexivity.
Defined.

(** The tool [fly] does not exist: the model is told so. *)
Lemma unknown_tool_is_answered_witness :
  let tc := MkToolCall (lit "call_1") (lit "fly") (lit "{}") in
  let st := MkState [] Demo.tree [] [] in
  ~ In (tc_name tc) toolNames
  /\ Demo.JSON_parse (tc_arguments tc) = Normal Demo.noArgs
  /\ demoExecute (tc_name tc) Demo.noArgs (files st)
     = Normal (lit "Unknown tool: fly", Demo.tree)
  /\ messages (snd (demoRunCalls [tc] st))
     = [ToolMsg (lit "call_1") (lit "Unknown tool: fly")].
Proof.
  cbv zeta.
  assert (Hname : ~ In (lit "fly") toolNames).
  { unfold toolNames. simpl. intros H.
    repeat (destruct H as [H|H]; [discriminate H|]). exact H. }
  split; [exact Hname|]. split; [reflexivity|].
  destruct (unknown_tool_is_answered Demo.resolve Demo.path_join
              Demo.path_basename Demo.path_dirname Demo.regexp_error
              Demo.regexp_test Demo.readFileSync_bad Demo.writeFileSync_bad
              Demo.invalidArgMessage Demo.JSON_parse Demo.inspect
              (MkToolCall (lit "call_1") (lit "fly") (lit "{}")) []
              Demo.noArgs (MkState [] Demo.tree [] []) Hname eq_refl)
    as [Hexec Hrun].
  split; [exact Hexec|]. rewrite Hrun. reflexivity.
Defined.

(** Searching a directory that does not exist finds nothing. *)
Lemma search_of_unlistable_root_witness :
  Demo.regexp_error (lit "foo") = None
  /\ (forall w es,
         find (Demo.resolve (orCurrent (lit "nowhere"))) Demo.tree
         <> inr (Dir true w es))
  /\ demoSearch (lit "foo") (lit "nowhere") None Demo.tree
     = (lit "No matches found", [Readdir (lit "nowhere")]).
Proof.
  split; [reflexivity|]. split; [discriminate|].
  apply search_of_unlistable_root; [reflexivity | discriminate].
Defined.

(** The filters [.txt] and [*.txt]. *)
Lemma glob_plain_text_and_suffix_witness :
  existsb isWildcard (lit ".txt") = false
  /\ forall name,
       (fragmentTest canonicalizeAscii (globToRegExp (lit ".txt")) name = Some true
        <-> List.map canonicalizeAscii name = List.map canonicalizeAscii (lit ".txt"))
       /\ (fragmentTest canonicalizeAscii (globToRegExp (STAR :: lit ".txt")) name
           = Some true
           <-> exists pre post,
                 name = pre ++ post
                 /\ forallb notLineTerminator pre = true
                 /\ List.map canonicalizeAscii post
                    = List.map canonicalizeAscii (lit ".txt")).
Proof.
  split; [reflexivity|].
  apply glob_plain_text_and_suffix. reflexivity.
Defined.

(** The three lines, and the empty fourth, of ["foo\nbar\nfoo\n"]. *)
Lemma lines_of_content_witness :
  let content := lit "foo" ++ NL ++ lit "bar" ++ NL ++ lit "foo" ++ NL in
  existsb (cu_eqb CR) content = false
  /\ (length (splitLines content) = S (count_occ N.eq_dec content LF)
      /\ join (splitLines content) NL = content).
Proof.
  cbv zeta. split; [reflexivity|].
  apply lines_of_content. reflexivity.
Defined.


(** Replacing the one ["a"] of [a.txt] by ["bcd"]. *)
Lemma edit_file_on_plain_arguments_witness :
  lit "a" <> []
  /\ forallb (fun c => negb (cu_eqb c DOLLAR)) (lit "bcd") = true
  /\ readFileSync Demo.resolve (lit "a.txt") Demo.tree = Normal (lit "xay")
  /\ exists pre post,
       lit "xay" = pre ++ lit "a" ++ post
       /\ match writeFileSync Demo.resolve (lit "a.txt")
                              (pre ++ lit "bcd" ++ post) Demo.tree with
          | Normal fs' =>
              editFileTool Demo.resolve (lit "a.txt") (lit "a") (lit "bcd") Demo.tree
              = (lit "Successfully edited " ++ lit "a.txt", fs')
              /\ exists r w,
                   find (Demo.resolve (lit "a.txt")) fs'
                   = inr (File r w (pre ++ lit "bcd" ++ post))
          | Throw e =>
              editFileTool Demo.resolve (lit "a.txt") (lit "a") (lit "bcd") Demo.tree
              = (editCatch (lit "a.txt") e, Demo.tree)
          end.
Proof.
  split; [discriminate|]. split; [reflexivity|]. split; [reflexivity|].
  exact (edit_file_on_plain_arguments Demo.resolve (lit "a.txt") (lit "a")
           (lit "bcd") (lit "xay") Demo.tree ltac:(discriminate) eq_refl eq_refl).
Defined.

(** Asked to read [a.txt], both agents run alike. *)
Lemma agent_ts_runs_are_kept_witness :
  let final :=
    snd (run_ts Demo.resolve Demo.readFileSync_bad Demo.invalidArgMessage
                Demo.readThenAnswer Demo.JSON_parse_path
                Demo.inspect 3 (lit "hello") Demo.tree) in
  (forall ms msg tc,
      Demo.readThenAnswer ms = Normal msg -> In tc (callsOf msg) ->
      sharedCall Demo.JSON_parse_path tc)
  /\ run_ts Demo.resolve Demo.readFileSync_bad Demo.invalidArgMessage
            Demo.readThenAnswer Demo.JSON_parse_path Demo.inspect 3
            (lit "hello") Demo.tree = (Finished, final)
  /\ messages final
     = [UserMsg (lit "hello");
        AssistantMsg
          (MkAssistant None
             (Some [MkToolCall (lit "call_1") (lit "read_file") Demo.pathPayload]));
        ToolMsg (lit "call_1") (lit "xay")]
  /\ demoRun Demo.readThenAnswer Demo.JSON_parse_path Demo.inspect 3 (lit "hello")
             Demo.tree = (Finished, final).
Proof.
  cbv zeta.
  assert (Hcalls : forall ms msg tc,
             Demo.readThenAnswer ms = Normal msg -> In tc (callsOf msg) ->
             sharedCall Demo.JSON_parse_path tc).
  { intros ms msg tc Hmsg Hin. unfold Demo.readThenAnswer in Hmsg.
    destruct ms as [|m [|m' ms']]; injection Hmsg as <-;
      try (now destruct Hin).
    destruct Hin as [<-|[]]. split; [left; reflexivity|].
    intros Hn. discriminate Hn. }
  split; [exact Hcalls|]. split; [reflexivity|]. split; [reflexivity|].
  apply (agent_ts_runs_are_kept Demo.resolve Demo.path_join Demo.path_basename
           Demo.path_dirname Demo.regexp_error Demo.regexp_test
           Demo.readFileSync_bad Demo.writeFileSync_bad Demo.invalidArgMessage
           Demo.readThenAnswer Demo.JSON_parse_path Demo.inspect 3 (lit "hello")
           Demo.tree _ Hcalls).
  reflexivity.
Defined.

(** ** Payloads that hold no strings *)

Example arguments_of_other_types :
  demoExecute (lit "list_directory") (JObj [(lit "path", JNum (lit "5"))])
              Demo.tree
  = Throw (MkExn None (lit "p.trim is not a function"))
  /\ demoExecute (lit "list_directory") (JObj [(lit "path", JNum (lit "0"))])
                 Demo.tree
     = demoExecute (lit "list_directory") Demo.noArgs Demo.tree
  /\ demoExecute (lit "read_file") JNull Demo.tree
     = Throw (MkExn None
                (lit "Cannot read properties of null (reading 'path')"))
  /\ demoExecute (lit "search")
                 (JObj [(lit "pattern", JStr (lit "("));
                        (lit "file_pattern", JBool true)]) Demo.tree
     = Normal (lit "Invalid regex pattern: " ++ match Demo.regexp_error (lit "(") with
                                              | Some msg => msg
                                              | None => []
                                              end, Demo.tree)
  /\ demoExecute (lit "search")
                 (JObj [(lit "pattern", JStr (lit "a"));
                        (lit "file_pattern", JBool true)]) Demo.tree
     = Throw (MkExn None (lit "filePattern.trim is not a function"))
  /\ fst (demoRunLoop Demo.listNumber Demo.JSON_parse_number Demo.inspect 3
                      (MkState [UserMsg (lit "hello")] Demo.tree [] []))
     = Fault (MkExn None (lit "p.trim is not a function")).
Proof. repeat split; reflexivity. Qed.

Example missing_arguments :
  demoExecute (lit "read_file") Demo.noArgs Demo.tree
  = Normal (lit "Error reading file: The " ++ [34%N] ++ lit "path" ++ [34%N]
              ++ lit " argument must be of type string or an instance of Buffer or URL. Received undefined",
            Demo.tree)
  /\ demoExecute (lit "delete_file") (JObj [(lit "path", JBool true)]) Demo.tree
     = Normal (lit "Error deleting: The " ++ [34%N] ++ lit "path" ++ [34%N]
                 ++ lit " argument must be of type string or an instance of Buffer or URL. Received type boolean (true)",
               Demo.tree)
  /\ demoExecute (lit "edit_file")
                 (JObj [(lit "path", JStr (lit "a.txt"));
                        (lit "new_string", JStr (lit "b"))]) Demo.tree
     = Normal (lit "Error: old_string not found in a.txt", Demo.tree)
  /\ fst (writeFileTool_any Demo.resolve Demo.path_dirname
                            Demo.invalidArgMessage
                            (Some (JStr (lit "x/z.txt"))) None Demo.tree)
     = lit "Error writing file: The " ++ [34%N] ++ lit "data" ++ [34%N]
         ++ lit " argument must be of type string or an instance of Buffer, TypedArray, or DataView. Received undefined"
  /\ isDirectoryAt [lit "x"]
       (snd (writeFileTool_any Demo.resolve Demo.path_dirname
                               Demo.invalidArgMessage
                               (Some (JStr (lit "x/z.txt"))) None Demo.tree))
     = true.
Proof. repeat split; reflexivity. Qed.
